(** * web-page-replay: the replay orchestrator ([main]) and its option table

    A shallow embedding of [src/perftracker/runner_cfg.py]: the function
    [main] (lines 58-91), which selects the replay server class, acquires
    the DNS proxy, the record/replay HTTP server and the traffic shaper as
    nested [with] scopes, idles until the time limit, and handles what
    escapes; and the [optparse] option table (lines 102-170).

    The engines ([dnsproxy], [httpproxy], [replayspdyserver],
    [trafficshaper]) and the modules [time] and [logging] are not part of
    the file: every call into them is answered by a [world], and recorded
    with its outcome in a trace of events. Three things are taken for
    granted: [logging.info], [logging.critical] and [print] return; the
    attributes that [main] reads exist; and [time.time()] returns a
    finite float, given here by its value, a rational. The difference of
    two readings is rounded as the subtraction of two doubles is. *)

From Stdlib Require Import ZArith QArith Qround Qabs Qpower Lia Lqa Ascii.
From stdpp Require Import base option list strings gmap.

Open Scope Z_scope.

(** ** Values, exceptions and the configuration *)

(** The exceptions [main] tells apart, by the class its [except] clauses
    name. [OtherException] stands for every class that none of the named
    clauses matches (IOError, socket.error, ImportError, ...). *)
Inductive exn : Type :=
| KeyboardInterrupt
| DnsProxyException (msg : string)
| TrafficShaperException (msg : string)
| SystemExit (code : Z)
| OtherException (cls msg : string).

(** [str(e)], the text [logging.critical(e)] formats. *)
Definition str_exn (e : exn) : string :=
  match e with
  | KeyboardInterrupt => ""
  | DnsProxyException msg => msg
  | TrafficShaperException msg => msg
  | SystemExit code => ""
  | OtherException _ msg => msg
  end.

(** The attributes of [options] that the option table declares. The flags
    are booleans, [time_limit] is [None] or an int, the network parameters
    are strings. *)
Record Options : Type := mkOptions {
  spdy : bool;
  record : bool;
  log_level : string;
  log_file : option string;
  time_limit : option Z;
  up : string;
  down : string;
  delay_ms : string;
  packet_loss_rate : string;
  deterministic_script : bool;
  dns_private_passthrough : bool;
  dns_forwarding : bool
}.

(** The three classes [replay_server_class] can be bound to. *)
Inductive server_class : Type :=
| RecordHttpProxyServer
| ReplaySpdyServer
| ReplayHttpProxyServer.

(** The three context managers of [main], outermost first. *)
Inductive engine : Type :=
| DnsProxyServer
| ReplayServer
| TrafficShaper.

(** What [DnsProxyServer.__enter__] hands to the [as dns_server] target:
    an object with the attribute [real_dns_lookup]. *)
Record dns_server : Type := mkDnsServer {
  real_dns_lookup : string -> option string
}.

Inductive level : Type := DEBUG | INFO | WARNING | ERROR | CRITICAL.

(** ** Events *)

(** Every call that leaves [main], with its arguments. *)
Inductive call : Type :=
| Import_replayspdyserver
| New_DnsProxyServer (forward passthrough : bool)
| New_ReplayServer (cls : server_class) (replay_file : string)
    (with_script : bool) (lookup : string -> option string)
| New_TrafficShaper (forward : bool) (a_up a_down a_delay_ms a_loss : string)
| Enter (e : engine)
| Exit (e : engine) (exc : option exn)
| Time_time
| Time_sleep (secs : Z)
| Logging (lvl : level) (msg : string)
| Print_traceback (e : exn).

(** A call together with the exception it raised, if any. *)
Inductive event : Type := Ev (c : call) (raised : option exn).

(** ** The world outside [main] *)

Inductive reply (A : Type) : Type :=
| Returns (a : A)
| Raises (e : exn).
Arguments Returns {A} a.
Arguments Raises {A} e.

Definition raised_by {A} (r : reply A) : option exn :=
  match r with Returns _ => None | Raises e => Some e end.

(** How each outside call answers. [__exit__] returns a value whose truth
    tells [with] to swallow the exception in flight. The [k]-th call of
    [time.time()] reads [w_clock k], the value of the float it returns;
    the [k]-th call of [time.sleep] answers [w_sleep k] (an interrupt
    arrives as a raised [KeyboardInterrupt]). *)
Record world : Type := mkWorld {
  w_import : reply unit;
  w_new_dns : bool -> bool -> reply unit;
  w_enter_dns : reply dns_server;
  w_new_server : server_class -> string -> bool -> reply unit;
  w_enter_server : reply unit;
  w_new_shaper : bool -> string -> string -> string -> string -> reply unit;
  w_enter_shaper : reply unit;
  w_exit : engine -> option exn -> reply bool;
  w_clock : nat -> reply Q;
  w_sleep : nat -> reply unit
}.

(** ** A small monad: events out, exceptions, and a run that has not ended *)

(** How many times the clock was read and [time.sleep] was called. *)
Record counters : Type := mkCounters {
  clock_reads : nat;
  sleeps : nat
}.

Definition initial : counters := mkCounters 0 0.

Inductive res (A : Type) : Type :=
| Done (a : A)
| Raised (e : exn)
| Running.
Arguments Done {A} a.
Arguments Raised {A} e.
Arguments Running {A}.

(** A computation ends (or not), emits events, and moves the counters. *)
Definition M (A : Type) : Type := counters -> res A * list event * counters.

Definition ret {A} (a : A) : M A := fun c => (Done a, [], c).

Definition raise {A} (e : exn) : M A := fun c => (Raised e, [], c).

Definition still_running {A} : M A := fun c => (Running, [], c).

Definition bind {A B} (m : M A) (k : A -> M B) : M B :=
  fun c =>
    match m c with
    | (Done a, t, c') => let '(r, t', c'') := k a c' in (r, t ++ t', c'')
    | (Raised e, t, c') => (Raised e, t, c')
    | (Running, t, c') => (Running, t, c')
    end.

Declare Scope run_scope.
Delimit Scope run_scope with run.
Notation "x <- m ;; k" := (bind m (fun x => k))
  (at level 100, m at next level, right associativity) : run_scope.
Notation "m ;;; k" := (bind m (fun _ => k))
  (at level 100, right associativity) : run_scope.
Open Scope run_scope.

Definition answer {A} (r : reply A) : res A :=
  match r with Returns a => Done a | Raises e => Raised e end.

(** An outside call: record it with its outcome, then return or raise. *)
Definition outside {A} (c : call) (r : reply A) : M A :=
  fun n => (answer r, [Ev c (raised_by r)], n).

Definition time_time (w : world) : M Q :=
  fun n =>
    let r := w_clock w (clock_reads n) in
    (answer r, [Ev Time_time (raised_by r)],
     mkCounters (S (clock_reads n)) (sleeps n)).

Definition time_sleep (w : world) (secs : Z) : M unit :=
  fun n =>
    let r := w_sleep w (sleeps n) in
    (answer r, [Ev (Time_sleep secs) (raised_by r)],
     mkCounters (clock_reads n) (S (sleeps n))).

(** [try: body except: handler], and the way out of a [with] block: what
    follows a body depends on how it ended. A body that has not ended is
    not followed by anything. *)
Definition after {A B} (body : M A) (k : res A -> M B) : M B :=
  fun c =>
    match body c with
    | (Running, t, c') => (Running, t, c')
    | (r, t, c') => let '(r', t', c'') := k r c' in (r', t ++ t', c'')
    end.

(** [with new as x: body]. The manager is built, then entered; only when
    [__enter__] has returned is [__exit__] bound to run: with [None] when
    the body ends, with the exception when the body raises, which is then
    re-raised unless [__exit__] returns a true value. An exception raised
    by [__exit__] itself replaces the one in flight. *)
Definition with_ {A B} (new : M unit) (enter : M A)
    (exit : option exn -> M bool) (body : A -> M B) : M unit :=
  new ;;;
  x <- enter ;;
  after (body x)
    (fun r =>
       match r with
       | Raised e =>
           swallow <- exit (Some e) ;;
           if (swallow : bool) then ret tt else raise e
       | _ => exit None ;;; ret tt
       end).

(** [try: body except ...: handler]: every exception of the body goes to
    [handler] (the last clause of [main] is a bare [except:]). *)
Definition try_except (body : M unit) (handler : exn -> M unit) : M unit :=
  after body
    (fun r =>
       match r with
       | Raised e => handler e
       | _ => ret tt
       end).

(** ** [main] *)

(** Truth value of [options.time_limit]: [None] and [0] are false. *)
Definition truthy_limit (l : option Z) : bool :=
  match l with
  | None => false
  | Some n => negb (n =? 0)
  end.

Definition Qltb (x y : Q) : bool := negb (Qle_bool y x).

(** *** Floats

    A Python float is an IEEE 754 double. The floats of [main] are the
    readings of the clock and their differences; none is a NaN. A finite
    one is given by its value, and the difference of two readings may be
    an infinity. *)
Inductive double : Type :=
| Finite (q : Q)
| Infinity (negative : bool).

(** The exponent of the power of two at or just below [q], for [q > 0]. *)
Definition floor_log2 (q : Q) : Z :=
  let g := Z.log2 (Qnum q) - Z.log2 (Zpos (Qden q)) in
  if Qle_bool (Qpower 2 g) q then g else g - 1.

(** The integer nearest to [x], the even one of two that are as near. *)
Definition round_half_even (x : Q) : Z :=
  let f := Qfloor x in
  match Qcompare (x - inject_Z f) (1 # 2) with
  | Lt => f
  | Gt => f + 1
  | Eq => if Z.even f then f else f + 1
  end.

(** The number nearest to [a > 0] among those with a mantissa of 53 bits
    (the even mantissa of two that are as near), in steps of [2^-1074]
    at the bottom of the range. *)
Definition nearest (a : Q) : Q :=
  let ulp := Qpower 2 (Z.max (floor_log2 a - 52) (-1074)) in
  inject_Z (round_half_even (a / ulp)) * ulp.

(** The double nearest to [q] (IEEE 754 binary64, round to nearest, ties
    to even); an infinity from [2^1024] on. *)
Definition binary64 (q : Q) : double :=
  let a := Qabs q in
  if Qeq_bool a 0 then Finite 0
  else
    let r := nearest a in
    if Qle_bool (Qpower 2 1024) r then Infinity (negb (Qle_bool 0 q))
    else Finite (if Qle_bool 0 q then r else - r)%Q.

(** [x - y] on two floats. *)
Definition float_sub (x y : Q) : double := binary64 (x - y).

(** [x < n] for a float and an int: Python compares the two values as
    they are, without rounding the int. *)
Definition float_lt_int (x : double) (n : Z) : bool :=
  match x with
  | Finite q => Qltb q (inject_Z n)
  | Infinity negative => negative
  end.

Section Main.
Variable w : world.
Variable options : Options.
Variable replay_file : string.

(** Lines 59-67. *)
Definition select_server_class : M server_class :=
  if record options then ret RecordHttpProxyServer
  else if spdy options then
    outside Import_replayspdyserver (w_import w) ;;;
    ret ReplaySpdyServer
  else ret ReplayHttpProxyServer.

(** Lines 81-83: [while (not options.time_limit or
    time.time() - start < options.time_limit): time.sleep(1)].
    [or] does not evaluate its right operand when the left one is true.
    [fuel] bounds the number of iterations looked at. *)
Fixpoint idle (fuel : nat) (start : Q) : M unit :=
  match fuel with
  | O => still_running
  | S fuel' =>
      continue <-
        (if negb (truthy_limit (time_limit options)) then ret true
         else
           now <- time_time w ;;
           ret (match time_limit options with
                | Some limit => float_lt_int (float_sub now start) limit
                | None => true
                end)) ;;
      if (continue : bool) then time_sleep w 1 ;;; idle fuel' start
      else ret tt
  end.

Definition exit_of (e : engine) (exc : option exn) : M bool :=
  outside (Exit e exc) (w_exit w e exc).

(** Lines 70-83. *)
Definition scopes (replay_server_class : server_class) (fuel : nat) : M unit :=
  with_
    (outside (New_DnsProxyServer (dns_forwarding options)
                                 (dns_private_passthrough options))
             (w_new_dns w (dns_forwarding options)
                          (dns_private_passthrough options)))
    (outside (Enter DnsProxyServer) (w_enter_dns w))
    (exit_of DnsProxyServer)
    (fun dns_server =>
       with_
         (outside (New_ReplayServer replay_server_class replay_file
                     (deterministic_script options)
                     (real_dns_lookup dns_server))
                  (w_new_server w replay_server_class replay_file
                     (deterministic_script options)))
         (outside (Enter ReplayServer) (w_enter_server w))
         (exit_of ReplayServer)
         (fun _ =>
            with_
              (outside (New_TrafficShaper (dns_forwarding options)
                          (up options) (down options) (delay_ms options)
                          (packet_loss_rate options))
                       (w_new_shaper w (dns_forwarding options)
                          (up options) (down options) (delay_ms options)
                          (packet_loss_rate options)))
              (outside (Enter TrafficShaper) (w_enter_shaper w))
              (exit_of TrafficShaper)
              (fun _ =>
                 start <- time_time w ;;
                 idle fuel start))).

(** Lines 84-91. *)
Definition handler (e : exn) : M unit :=
  match e with
  | KeyboardInterrupt =>
      outside (Logging INFO "Shutting down.") (Returns tt)
  | DnsProxyException _ =>
      outside (Logging CRITICAL (str_exn e)) (Returns tt)
  | TrafficShaperException _ =>
      outside (Logging CRITICAL (str_exn e)) (Returns tt)
  | _ =>
      outside (Print_traceback e) (Returns tt)
  end.

(** [main(options, replay_file)]: it has no [return] statement, so
    [Done tt] stands for returning [None]. *)
Definition main (fuel : nat) : M unit :=
  replay_server_class <- select_server_class ;;
  try_except (scopes replay_server_class fuel) handler.

End Main.

(** The run of [main]: how it ended and what it did. *)
Definition run (w : world) (o : Options) (f : string) (fuel : nat)
  : res unit * list event :=
  (main w o f fuel initial).1.

(** ** The option table (lines 102-170) *)

(** The values an attribute of [options] can hold. *)
Inductive pyval : Type :=
| VNone
| VBool (b : bool)
| VInt (z : Z)
| VStr (s : string).

Inductive action : Type := store | store_true | store_false | help.

Inductive value_type : Type :=
| type_string
| type_int
| type_choice (choices : list string).

(** One [add_option] call: its two option strings and its keywords. *)
Record option_decl : Type := mkOption {
  opt_short : string;
  opt_long : string;
  opt_default : pyval;
  opt_action : action;
  opt_type : option value_type;
  opt_dest : option string;
  opt_help : string
}.

(** The option [OptionParser] adds by itself. *)
Definition help_option : option_decl :=
  mkOption "-h" "--help" VNone help None None
    "show this help message and exit".

(** Lines 108-126. *)
Definition parser_options : list option_decl :=
  [ mkOption "-s" "--spdy" (VBool false) store_true None None
      "Use spdy to replay relay_file.";
    mkOption "-r" "--record" (VBool false) store_true None None
      "Download real responses and record them to replay_file";
    mkOption "-l" "--log_level" (VStr "debug") store
      (Some (type_choice ["debug"; "info"; "warning"; "error"; "critical"]))
      None
      "Minimum verbosity level to log";
    mkOption "-f" "--log_file" VNone store (Some type_string) None
      "Log file to use in addition to writting logs to stderr.";
    mkOption "-t" "--time_limit" VNone store (Some type_int) None
      "Maximum number of seconds to run before quiting." ].

(** Lines 128-147. *)
Definition network_group : list option_decl :=
  [ mkOption "-u" "--up" (VStr "0") store (Some type_string) None
      "Upload Bandwidth in [K|M]{bit/s|Byte/s}. Zero means unlimited.";
    mkOption "-d" "--down" (VStr "0") store (Some type_string) None
      "Download Bandwidth in [K|M]{bit/s|Byte/s}. Zero means unlimited.";
    mkOption "-m" "--delay_ms" (VStr "0") store (Some type_string) None
      "Propagation delay (latency) in milliseconds. Zero means no delay.";
    mkOption "-p" "--packet_loss_rate" (VStr "0") store (Some type_string) None
      "Packet loss rate in range [0..1]. Zero means no loss." ].

(** Lines 149-170. *)
Definition harness_group : list option_decl :=
  [ mkOption "-n" "--no-deterministic_script" (VBool true) store_false None
      (Some "deterministic_script")
      ("Don't inject JavaScript which makes sources of entropy such as "
       +:+ "Date() and Math.random() deterministic. CAUTION: With this option "
       +:+ "many web pages will not replay properly.");
    mkOption "-P" "--no-dns_private_passthrough" (VBool true) store_false None
      (Some "dns_private_passthrough")
      ("Don't forward DNS requests that resolve to private network "
       +:+ "addresses. CAUTION: With this option important services like "
       +:+ "Kerberos will resolve to the HTTP proxy address.");
    mkOption "-x" "--no-dns_forwarding" (VBool true) store_false None
      (Some "dns_forwarding")
      ("Don't forward DNS requests to the local replay server."
       +:+ "CAUTION: With this option an external mechanism must be used to "
       +:+ "forward traffic to the replay server.") ].

(** All options of the parser, its own first, then the groups in the order
    they were added. *)
Definition all_options : list option_decl :=
  help_option :: parser_options ++ network_group ++ harness_group.

(** ** What [optparse] does with the table *)

Fixpoint replace_char (a b : ascii) (s : string) : string :=
  match s with
  | EmptyString => EmptyString
  | String c s' => String (if Ascii.eqb c a then b else c) (replace_char a b s')
  end.

(** The attribute an option writes: its [dest], or, when none is given, the
    long option string without its dashes and with [-] turned into [_].
    The [help] action stores nothing. *)
Definition dest_of (d : option_decl) : option string :=
  match opt_action d with
  | help => None
  | _ =>
      Some (match opt_dest d with
            | Some k => k
            | None =>
                replace_char "-"%char "_"%char
                  (String.substring 2 (String.length (opt_long d) - 2)
                                    (opt_long d))
            end)
  end.

Definition takes_value (d : option_decl) : bool :=
  match opt_type d with Some _ => true | None => false end.

Inductive usage_error : Type :=
| No_such_option (opt : string)
| Ambiguous_option (opt : string)
| Requires_argument (opt : string)
| Takes_no_value (opt : string)
| Invalid_value (opt value : string).

Inductive step (A : Type) : Type :=
| Go (a : A)
| Stop_error (err : usage_error)
| Stop_help.
Arguments Go {A} a.
Arguments Stop_error {A} err.
Arguments Stop_help {A}.

(** How [parse_args] ends: with the values and the positional arguments,
    with a usage error (exit status 2), or after printing the help. *)
Inductive parsed : Type :=
| Parsed (values : gmap string pyval) (args : list string)
| Usage (err : usage_error)
| Help_printed.

Section Optparse.
(** [optparse]'s conversion of an [int] option value, not modelled. *)
Variable int_of_string : string -> option Z.

(** [Option.check_value]: the value as the option's type wants it. *)
Definition check_value (d : option_decl) (value : string) : option pyval :=
  match opt_type d with
  | Some type_int => VInt <$> int_of_string value
  | Some (type_choice choices) =>
      if bool_decide (value ∈ choices) then Some (VStr value) else None
  | Some type_string | None => Some (VStr value)
  end.

(** [Option.take_action]. *)
Definition take_action (d : option_decl) (value : pyval)
    (values : gmap string pyval) : step (gmap string pyval) :=
  match opt_action d, dest_of d with
  | store, Some k => Go (<[k := value]> values)
  | store_true, Some k => Go (<[k := VBool true]> values)
  | store_false, Some k => Go (<[k := VBool false]> values)
  | help, _ => Stop_help
  | _, None => Go values
  end.

(** [Option.process]: convert the value, then act. *)
Definition process (d : option_decl) (opt : string) (value : option string)
    (values : gmap string pyval) : step (gmap string pyval) :=
  match value with
  | None => take_action d VNone values
  | Some v =>
      match check_value d v with
      | Some pv => take_action d pv values
      | None => Stop_error (Invalid_value opt v)
      end
  end.

(** [OptionParser.get_default_values]: every attribute starts at the
    default of its option; a default that is a string goes through the
    option's type first. *)
Definition default_of (d : option_decl) : pyval :=
  match opt_default d with
  | VStr s => match check_value d s with Some pv => pv | None => VStr s end
  | v => v
  end.

Definition get_default_values : gmap string pyval :=
  foldl (fun values d =>
           match dest_of d with
           | Some k => <[k := default_of d]> values
           | None => values
           end) ∅ all_options.

(** [_match_long_opt]: the option itself, or the only one it abbreviates. *)
Definition match_long_opt (opt : string) : step option_decl :=
  match filter (fun d => opt_long d = opt) all_options with
  | d :: _ => Go d
  | [] =>
      match filter (fun d => String.prefix opt (opt_long d) = true)
                   all_options with
      | [d] => Go d
      | [] => Stop_error (No_such_option opt)
      | _ => Stop_error (Ambiguous_option opt)
      end
  end.

Definition match_short_opt (opt : string) : option option_decl :=
  head (filter (fun d => opt_short d = opt) all_options).

(** [_process_long_opt] on the argument [arg], with [next] the argument
    after it, if any. The boolean tells whether [next] was used up as the
    option's value. Once the option is found, it goes by its full name,
    also when an abbreviation was written. *)
Definition process_long_opt (arg : string) (next : option string)
    (values : gmap string pyval) : step (gmap string pyval * bool) :=
  let '(opt, explicit) :=
    match String.index 0 "=" arg with
    | Some i =>
        (String.substring 0 i arg,
         Some (String.substring (S i) (String.length arg - S i) arg))
    | None => (arg, None)
    end in
  match match_long_opt opt with
  | Stop_error err => Stop_error err
  | Stop_help => Stop_help
  | Go d =>
      let opt := opt_long d in
      if takes_value d then
        match explicit, next with
        | Some v, _ =>
            match process d opt (Some v) values with
            | Go values' => Go (values', false)
            | Stop_error err => Stop_error err
            | Stop_help => Stop_help
            end
        | None, Some v =>
            match process d opt (Some v) values with
            | Go values' => Go (values', true)
            | Stop_error err => Stop_error err
            | Stop_help => Stop_help
            end
        | None, None => Stop_error (Requires_argument opt)
        end
      else
        match explicit with
        | Some _ => Stop_error (Takes_no_value opt)
        | None =>
            match process d opt None values with
            | Go values' => Go (values', false)
            | Stop_error err => Stop_error err
            | Stop_help => Stop_help
            end
        end
  end.

(** [_process_short_opts] on the letters after the dash: flags may be
    clustered; an option that takes a value takes the rest of the
    cluster, or else the next argument. *)
Fixpoint process_short_opts (letters : string) (next : option string)
    (values : gmap string pyval) : step (gmap string pyval * bool) :=
  match letters with
  | EmptyString => Go (values, false)
  | String ch rest =>
      let opt := String "-"%char (String ch EmptyString) in
      match match_short_opt opt with
      | None => Stop_error (No_such_option opt)
      | Some d =>
          if takes_value d then
            match rest, next with
            | EmptyString, None => Stop_error (Requires_argument opt)
            | EmptyString, Some v =>
                match process d opt (Some v) values with
                | Go values' => Go (values', true)
                | Stop_error err => Stop_error err
                | Stop_help => Stop_help
                end
            | _, _ =>
                match process d opt (Some rest) values with
                | Go values' => Go (values', false)
                | Stop_error err => Stop_error err
                | Stop_help => Stop_help
                end
            end
          else
            match process d opt None values with
            | Go values' => process_short_opts rest next values'
            | Stop_error err => Stop_error err
            | Stop_help => Stop_help
            end
      end
  end.

(** [_process_args]: [largs] collects the positional arguments seen so
    far, [rargs] is what is left to read. *)
Fixpoint process_args (largs rargs : list string)
    (values : gmap string pyval) : parsed :=
  match rargs with
  | [] => Parsed values largs
  | arg :: rest =>
      if bool_decide (arg = "--") then Parsed values (largs ++ rest)
      else
        let after (r : step (gmap string pyval * bool)) : parsed :=
          match r with
          | Stop_error err => Usage err
          | Stop_help => Help_printed
          | Go (values', used_next) =>
              match rest with
              | _ :: rest' =>
                  if used_next then process_args largs rest' values'
                  else process_args largs rest values'
              | [] => process_args largs rest values'
              end
          end in
        if String.prefix "--" arg then
          after (process_long_opt arg (head rest) values)
        else if String.prefix "-" arg && (1 <? String.length arg)%nat then
          after (process_short_opts
                   (String.substring 1 (String.length arg - 1) arg)
                   (head rest) values)
        else process_args (largs ++ [arg]) rest values
  end.

(** [option_parser.parse_args(argv)]. *)
Definition parse_args (argv : list string) : parsed :=
  process_args [] argv get_default_values.

End Optparse.

(** ** From the parsed values to the attributes [main] reads *)

Definition as_bool (v : option pyval) : option bool :=
  match v with Some (VBool b) => Some b | _ => None end.

Definition as_str (v : option pyval) : option string :=
  match v with Some (VStr s) => Some s | _ => None end.

Definition as_opt_str (v : option pyval) : option (option string) :=
  match v with
  | Some (VStr s) => Some (Some s)
  | Some VNone => Some None
  | _ => None
  end.

Definition as_opt_int (v : option pyval) : option (option Z) :=
  match v with
  | Some (VInt z) => Some (Some z)
  | Some VNone => Some None
  | _ => None
  end.

(** The [options] object as [main] sees it: one attribute per [dest]. *)
Definition options_of (values : gmap string pyval) : option Options :=
  o_spdy ← as_bool (values !! "spdy");
  o_record ← as_bool (values !! "record");
  o_log_level ← as_str (values !! "log_level");
  o_log_file ← as_opt_str (values !! "log_file");
  o_time_limit ← as_opt_int (values !! "time_limit");
  o_up ← as_str (values !! "up");
  o_down ← as_str (values !! "down");
  o_delay_ms ← as_str (values !! "delay_ms");
  o_packet_loss_rate ← as_str (values !! "packet_loss_rate");
  o_deterministic_script ← as_bool (values !! "deterministic_script");
  o_dns_private_passthrough ← as_bool (values !! "dns_private_passthrough");
  o_dns_forwarding ← as_bool (values !! "dns_forwarding");
  Some (mkOptions o_spdy o_record o_log_level o_log_file o_time_limit
          o_up o_down o_delay_ms o_packet_loss_rate
          o_deterministic_script o_dns_private_passthrough o_dns_forwarding).

(** ** What a trace tells *)

(** The engines whose [__enter__] returned, in the order they did. *)
Definition entered (tr : list event) : list engine :=
  omap (fun ev => match ev with Ev (Enter e) None => Some e | _ => None end) tr.

(** The engines whose [__exit__] was called, in the order it was. *)
Definition released (tr : list event) : list engine :=
  omap (fun ev => match ev with Ev (Exit e _) _ => Some e | _ => None end) tr.

Definition is_startup (c : call) : bool :=
  match c with
  | New_DnsProxyServer _ _ | New_ReplayServer _ _ _ _
  | New_TrafficShaper _ _ _ _ _ | Enter _ => true
  | _ => false
  end.

(** The constructor and [__enter__] calls made, whether they returned or
    raised. *)
Definition startup_calls (tr : list event) : list call :=
  omap (fun ev => match ev with
                  | Ev c _ => if is_startup c then Some c else None
                  end) tr.

(** The exceptions with which a constructor or an [__enter__] failed. *)
Definition startup_failures (tr : list event) : list (call * exn) :=
  omap (fun ev => match ev with
                  | Ev c (Some e) => if is_startup c then Some (c, e) else None
                  | _ => None
                  end) tr.

(** What [main]'s [except] clauses emit. *)
Definition is_report (ev : event) : bool :=
  match ev with
  | Ev (Logging _ _) _ | Ev (Print_traceback _) _ => true
  | _ => false
  end.

Definition reports (tr : list event) : list call :=
  omap (fun ev => match ev with
                  | Ev c _ => if is_report ev then Some c else None
                  end) tr.

(** The calls of the idle loop. *)
Definition is_idle (ev : event) : bool :=
  match ev with
  | Ev Time_time _ | Ev (Time_sleep 1) _ => true
  | _ => false
  end.

(** The exceptions [time.time()] and [time.sleep] raised. *)
Definition idle_failures (tr : list event) : list exn :=
  omap (fun ev => match ev with
                  | Ev Time_time (Some e) | Ev (Time_sleep _) (Some e) => Some e
                  | _ => None
                  end) tr.

(** Whatever the callback of a server that never came up. *)
Definition dns_callback (w : world) : string -> option string :=
  match w_enter_dns w with
  | Returns srv => real_dns_lookup srv
  | Raises _ => fun _ => None
  end.

(** The variant of the replay server as the configuration alone fixes it:
    record mode first, then the SPDY variant, then plain replay. *)
Definition variant_of_configuration (o : Options) : server_class :=
  if record o then RecordHttpProxyServer
  else if spdy o then ReplaySpdyServer
  else ReplayHttpProxyServer.

(** The startup of a run in which nothing fails, call by call. *)
Definition startup_plan (w : world) (o : Options) (f : string) : list call :=
  [ New_DnsProxyServer (dns_forwarding o) (dns_private_passthrough o);
    Enter DnsProxyServer;
    New_ReplayServer (variant_of_configuration o) f (deterministic_script o)
                     (dns_callback w);
    Enter ReplayServer;
    New_TrafficShaper (dns_forwarding o) (up o) (down o) (delay_ms o)
                      (packet_loss_rate o);
    Enter TrafficShaper ].

(** Modelled from the spec: the [__exit__] methods of the three engines,
    which are not in the file. Release follows scoped-lifetime semantics,
    what was acquired being released "before the failure is reported
    upward": every [__exit__] returns a false value and raises nothing, so
    that the exception in flight passes. *)
Definition transparent (w : world) : Prop :=
  forall e exc, w_exit w e exc = Returns false.

(** The status the interpreter ends with when [main]'s result ends the
    script: 0 when [main] returns (it returns [None], also as the
    argument of [sys.exit]), the code of a [SystemExit] that escapes, of
    which the system keeps the low eight bits, 1 for any other exception
    that escapes. A run that has not ended has no status. *)
Definition exit_status (r : res unit) : option Z :=
  match r with
  | Done _ => Some 0
  | Raised (SystemExit code) => Some (code mod 256)
  | Raised _ => Some 1
  | Running => None
  end.

(** The report the [except] clauses owe to an exception, by its class. *)
Definition report_for (e : exn) : call :=
  match e with
  | KeyboardInterrupt => Logging INFO "Shutting down."
  | DnsProxyException msg => Logging CRITICAL msg
  | TrafficShaperException msg => Logging CRITICAL msg
  | SystemExit _ | OtherException _ _ => Print_traceback e
  end.

(** ** Leaving the scopes, and a run phase by phase *)

Section Leaving.
Variable w : world.

(** What the way out of the [with] block of [eng] adds to a body that
    ended as [rb]: the [__exit__] call, and how the block ends. *)
Definition leaving {B} (eng : engine) (rb : res B) : res unit * list event :=
  match rb with
  | Running => (Running, [])
  | Done _ =>
      let r := w_exit w eng None in
      (match r with Returns _ => Done tt | Raises e' => Raised e' end,
       [Ev (Exit eng None) (raised_by r)])
  | Raised e =>
      let r := w_exit w eng (Some e) in
      (match r with
       | Returns true => Done tt
       | Returns false => Raised e
       | Raises e' => Raised e'
       end,
       [Ev (Exit eng (Some e)) (raised_by r)])
  end.

(** Leaving a stack of blocks, innermost first. *)
Fixpoint unwind (stack : list engine) (r : res unit) : res unit * list event :=
  match stack with
  | [] => (r, [])
  | eng :: outer =>
      let '(r1, t1) := leaving eng r in
      let '(r2, t2) := unwind outer r1 in
      (r2, t1 ++ t2)
  end.

End Leaving.

Section PhaseDefinitions.
Variable w : world.
Variable o : Options.
Variable f : string.

(** The class selection: the import it may run, and the exception that
    import may raise. *)
Definition import_phase : list event * option exn :=
  if record o then ([], None)
  else if spdy o then
    ([Ev Import_replayspdyserver (raised_by (w_import w))],
     raised_by (w_import w))
  else ([], None).

(** The startup calls in a row, up to the first that raises. *)
Definition startup_phase (cls : server_class) : list event * option exn :=
  let c1 := New_DnsProxyServer (dns_forwarding o) (dns_private_passthrough o) in
  let c3 lookup := New_ReplayServer cls f (deterministic_script o) lookup in
  let c5 := New_TrafficShaper (dns_forwarding o) (up o) (down o) (delay_ms o)
                              (packet_loss_rate o) in
  match w_new_dns w (dns_forwarding o) (dns_private_passthrough o) with
  | Raises e => ([Ev c1 (Some e)], Some e)
  | Returns _ =>
  match w_enter_dns w with
  | Raises e => ([Ev c1 None; Ev (Enter DnsProxyServer) (Some e)], Some e)
  | Returns srv =>
  let t2 := [Ev c1 None; Ev (Enter DnsProxyServer) None] in
  let c3 := c3 (real_dns_lookup srv) in
  match w_new_server w cls f (deterministic_script o) with
  | Raises e => (t2 ++ [Ev c3 (Some e)], Some e)
  | Returns _ =>
  match w_enter_server w with
  | Raises e => (t2 ++ [Ev c3 None; Ev (Enter ReplayServer) (Some e)], Some e)
  | Returns _ =>
  let t4 := t2 ++ [Ev c3 None; Ev (Enter ReplayServer) None] in
  match w_new_shaper w (dns_forwarding o) (up o) (down o) (delay_ms o)
                     (packet_loss_rate o) with
  | Raises e => (t4 ++ [Ev c5 (Some e)], Some e)
  | Returns _ =>
  match w_enter_shaper w with
  | Raises e => (t4 ++ [Ev c5 None; Ev (Enter TrafficShaper) (Some e)], Some e)
  | Returns _ => (t4 ++ [Ev c5 None; Ev (Enter TrafficShaper) None], None)
  end end end end end end.

(** Lines 80-83, the body of the innermost block. *)
Definition idle_phase (fuel : nat) : M unit :=
  start <- time_time w ;; idle w o fuel start.

End PhaseDefinitions.

(** The engines already entered when the startup call [c] is made. *)
Definition entered_before (c : call) : list engine :=
  match c with
  | New_ReplayServer _ _ _ _ | Enter ReplayServer => [DnsProxyServer]
  | New_TrafficShaper _ _ _ _ _ | Enter TrafficShaper =>
      [DnsProxyServer; ReplayServer]
  | _ => []
  end.

(** ** Reading the clock against the limit *)

(** The time elapsed is the float [now - start]. At its [i]-th reading
    the clock is less than [limit] seconds past [start]. *)
Definition elapsed_below (w : world) (start : Q) (limit : Z) (i : nat) : Prop :=
  exists now, w_clock w i = Returns now
              /\ float_lt_int (float_sub now start) limit = true.

(** At its [i]-th reading the clock is [limit] seconds or more past
    [start]. *)
Definition elapsed_reached (w : world) (start : Q) (limit : Z) (i : nat) : Prop :=
  exists now, w_clock w i = Returns now
              /\ float_lt_int (float_sub now start) limit = false.

(** The import, when the configuration asks for it, and the six startup
    calls of the configuration all return. *)
Definition starts_up (w : world) (o : Options) (f : string) : Prop :=
  (record o = false -> spdy o = true -> w_import w = Returns tt)
  /\ w_new_dns w (dns_forwarding o) (dns_private_passthrough o) = Returns tt
  /\ (exists srv, w_enter_dns w = Returns srv)
  /\ w_new_server w (variant_of_configuration o) f (deterministic_script o)
     = Returns tt
  /\ w_enter_server w = Returns tt
  /\ w_new_shaper w (dns_forwarding o) (up o) (down o) (delay_ms o)
                  (packet_loss_rate o) = Returns tt
  /\ w_enter_shaper w = Returns tt.

(** One turn of the loop under a time limit: a check, then a nap. *)
Definition check_and_nap : list event :=
  [Ev Time_time None; Ev (Time_sleep 1) None].


(** Where in the trace the import of [replayspdyserver] happens. *)
Definition is_import (ev : event) : bool :=
  match ev with Ev Import_replayspdyserver _ => true | _ => false end.

(** The same configuration with another [spdy] flag. *)
Definition set_spdy (b : bool) (o : Options) : Options :=
  mkOptions b (record o) (log_level o) (log_file o) (time_limit o)
            (up o) (down o) (delay_ms o) (packet_loss_rate o)
            (deterministic_script o) (dns_private_passthrough o)
            (dns_forwarding o).



(** ** Sample configurations and worlds *)

(** The configuration of a command line without options. *)
Definition default_options : Options :=
  mkOptions false false "debug" None None "0" "0" "0" "0" true true true.

Definition limited (seconds : Z) : Options :=
  mkOptions false false "debug" None (Some seconds) "0" "0" "0" "0"
            true true true.

Definition spdy_options : Options :=
  mkOptions true false "debug" None None "0" "0" "0" "0" true true true.

Definition record_and_spdy : Options :=
  mkOptions true true "debug" None None "0" "0" "0" "0" true true true.

(** A resolver that knows one host. *)
Definition one_host : dns_server :=
  mkDnsServer (fun host =>
    if bool_decide (host = "www.google.com") then Some "74.125.0.1" else None).

(** Every call returns, every [__exit__] with a false value, and the
    clock advances one second from one reading to the next. *)
Definition steady : world :=
  mkWorld (Returns tt)
          (fun _ _ => Returns tt) (Returns one_host)
          (fun _ _ _ => Returns tt) (Returns tt)
          (fun _ _ _ _ _ => Returns tt) (Returns tt)
          (fun _ _ => Returns false)
          (fun k => Returns (inject_Z (Z.of_nat k)))
          (fun _ => Returns tt).

(** Port 53 is taken: the DNS proxy cannot be built. *)
Definition dns_port_taken : world :=
  mkWorld (Returns tt)
          (fun _ _ => Raises (DnsProxyException "Unable to bind to port 53"))
          (Returns one_host)
          (fun _ _ _ => Returns tt) (Returns tt)
          (fun _ _ _ _ _ => Returns tt) (Returns tt)
          (fun _ _ => Returns false)
          (fun k => Returns (inject_Z (Z.of_nat k)))
          (fun _ => Returns tt).

(** The traffic shaper cannot be built. *)
Definition shaper_refused : world :=
  mkWorld (Returns tt)
          (fun _ _ => Returns tt) (Returns one_host)
          (fun _ _ _ => Returns tt) (Returns tt)
          (fun _ _ _ _ _ => Raises (TrafficShaperException "Unable to shape traffic"))
          (Returns tt)
          (fun _ _ => Returns false)
          (fun k => Returns (inject_Z (Z.of_nat k)))
          (fun _ => Returns tt).


(** The module [replayspdyserver] cannot be imported. *)
Definition spdy_missing : world :=
  mkWorld (Raises (OtherException "ImportError" "No module named replayspdyserver"))
          (fun _ _ => Returns tt) (Returns one_host)
          (fun _ _ _ => Returns tt) (Returns tt)
          (fun _ _ _ _ _ => Returns tt) (Returns tt)
          (fun _ _ => Returns false)
          (fun k => Returns (inject_Z (Z.of_nat k)))
          (fun _ => Returns tt).

(** An [int] conversion that knows the decimal digits. *)
Definition digit_of_string (s : string) : option Z :=
  match s with
  | String c EmptyString => Z.of_nat <$> Ascii.is_nat c
  | _ => None
  end.

(** ** The version guard (lines 53-55) *)

(** [sys.version < '2.6']: two strings, compared character by character. *)
Definition too_old (version : string) : bool := String.ltb version "2.6".

(** What the module does when it is loaded: [Some 1] for [sys.exit(1)],
    [None] for going on. *)
Definition version_guard (version : string) : option Z :=
  if too_old version then Some 1 else None.

(** ** Arguments and attributes *)

(** An argument that [_process_args] takes for neither a long nor a short
    option: it does not start with a dash, or it is the dash alone. *)
Definition looks_positional (arg : string) : bool :=
  negb (String.prefix "-" arg && (1 <? String.length arg)%nat).

(** The attributes [main] reads, and the option table fills. *)
Definition attributes : list string :=
  [ "spdy"; "record"; "log_level"; "log_file"; "time_limit"; "up"; "down";
    "delay_ms"; "packet_loss_rate"; "deterministic_script";
    "dns_private_passthrough"; "dns_forwarding" ].

(** The kind of value [options_of] expects under the attribute [k]. *)
Definition attribute_ok (k : string) (v : pyval) : bool :=
  if bool_decide (k ∈ ["spdy"; "record"; "deterministic_script";
                       "dns_private_passthrough"; "dns_forwarding"])
  then match v with VBool _ => true | _ => false end
  else if bool_decide (k ∈ ["log_level"; "up"; "down"; "delay_ms";
                            "packet_loss_rate"])
  then match v with VStr _ => true | _ => false end
  else if bool_decide (k = "log_file")
  then match v with VStr _ | VNone => true | _ => false end
  else if bool_decide (k = "time_limit")
  then match v with VInt _ | VNone => true | _ => false end
  else true.

(** Every attribute is there, with a value of its kind. *)
Definition well_formed (values : gmap string pyval) : Prop :=
  forall k, k ∈ attributes ->
    exists v, values !! k = Some v /\ attribute_ok k v = true.

(** How many times a run went to sleep. *)
Definition naps (tr : list event) : nat :=
  length (omap (fun ev => match ev with
                          | Ev (Time_sleep _) _ => Some tt
                          | _ => None
                          end) tr).

(** ** More sample worlds *)

(** The traffic shaper cannot be taken down: its [__exit__] raises. *)
Definition shaper_stuck : world :=
  mkWorld (Returns tt)
          (fun _ _ => Returns tt) (Returns one_host)
          (fun _ _ _ => Returns tt) (Returns tt)
          (fun _ _ _ _ _ => Returns tt) (Returns tt)
          (fun eng _ =>
             match eng with
             | TrafficShaper =>
                 Raises (TrafficShaperException "Unable to stop shaping")
             | _ => Returns false
             end)
          (fun k => Returns (inject_Z (Z.of_nat k)))
          (fun _ => Returns tt).

(** The traffic shaper cannot be built, and the [__exit__] of the replay
    server returns a true value. *)
Definition server_swallows : world :=
  mkWorld (Returns tt)
          (fun _ _ => Returns tt) (Returns one_host)
          (fun _ _ _ => Returns tt) (Returns tt)
          (fun _ _ _ _ _ => Raises (TrafficShaperException "Unable to shape traffic"))
          (Returns tt)
          (fun eng _ =>
             match eng with
             | ReplayServer => Returns true
             | _ => Returns false
             end)
          (fun k => Returns (inject_Z (Z.of_nat k)))
          (fun _ => Returns tt).

(** The constructor of the replay server calls [sys.exit(3)]. *)
Definition server_quits : world :=
  mkWorld (Returns tt)
          (fun _ _ => Returns tt) (Returns one_host)
          (fun _ _ _ => Raises (SystemExit 3)) (Returns tt)
          (fun _ _ _ _ _ => Returns tt) (Returns tt)
          (fun _ _ => Returns false)
          (fun k => Returns (inject_Z (Z.of_nat k)))
          (fun _ => Returns tt).

(** Every call returns, and the clock moves with the naps alone: no time
    passes between [start = time.time()] and the first look at the clock,
    and one second passes from a look to the next. *)
Definition napping : world :=
  mkWorld (Returns tt)
          (fun _ _ => Returns tt) (Returns one_host)
          (fun _ _ _ => Returns tt) (Returns tt)
          (fun _ _ _ _ _ => Returns tt) (Returns tt)
          (fun _ _ => Returns false)
          (fun k => Returns (inject_Z (Z.of_nat (k - 1))))
          (fun _ => Returns tt).



(** * Properties *)

(** Case analysis on a hypothesis [H : x ∈ [a; b; ...]], dropping the
    cases that clash on a constructor. *)
Ltac among H :=
  repeat (apply elem_of_cons in H as [H|H]; [try discriminate|]);
  try (by apply elem_of_nil in H).

(** ** The trace observers over concatenation *)

Lemma entered_app t1 t2 : entered (t1 ++ t2) = entered t1 ++ entered t2.
Proof. apply omap_app. Qed.

Lemma released_app t1 t2 : released (t1 ++ t2) = released t1 ++ released t2.
Proof. apply omap_app. Qed.

Lemma startup_calls_app t1 t2 :
  startup_calls (t1 ++ t2) = startup_calls t1 ++ startup_calls t2.
Proof. apply omap_app. Qed.

Lemma startup_failures_app t1 t2 :
  startup_failures (t1 ++ t2) = startup_failures t1 ++ startup_failures t2.
Proof. apply omap_app. Qed.

Lemma reports_app t1 t2 : reports (t1 ++ t2) = reports t1 ++ reports t2.
Proof. apply omap_app. Qed.

Lemma idle_failures_app t1 t2 :
  idle_failures (t1 ++ t2) = idle_failures t1 ++ idle_failures t2.
Proof. apply omap_app. Qed.

(** A stretch of idle-loop calls has no startup, release or report in it. *)
Lemma idle_only_silent (l : list event) :
  Forall (fun ev => is_idle ev = true) l ->
  entered l = [] /\ released l = [] /\ startup_calls l = []
  /\ startup_failures l = [] /\ reports l = [].
Proof.
  induction 1 as [|ev l Hev _ IH]; [done|].
  destruct IH as (IH1 & IH2 & IH3 & IH4 & IH5).
  unfold entered, released, startup_calls, startup_failures, reports in *.
  destruct ev as [[] []]; simpl in *; try discriminate; auto 10.
Qed.

(** ** The idle loop *)

Lemma Qltb_lt (x y : Q) : Qltb x y = true <-> (x < y)%Q.
Proof.
  unfold Qltb. rewrite negb_true_iff, <- not_true_iff_false, Qle_bool_iff.
  split; [apply Qnot_le_lt | apply Qlt_not_le].
Qed.

Lemma Qltb_ge (x y : Q) : Qltb x y = false <-> (y <= x)%Q.
Proof.
  unfold Qltb. rewrite negb_false_iff. apply Qle_bool_iff.
Qed.

(** ** Rounding to a double *)

Lemma round_half_even_floor x : Qfloor x <= round_half_even x.
Proof.
  unfold round_half_even.
  destruct (Qcompare _ _); [destruct (Z.even _)|..]; lia.
Qed.

(** Rounding does not go past an integer that the number is not past. *)
Lemma round_half_even_below x k :
  (x <= inject_Z k)%Q -> round_half_even x <= k.
Proof.
  intros Hx. unfold round_half_even.
  pose proof (Qfloor_le x) as Hf.
  assert (Qfloor x <= k) as Hk.
  { rewrite <- (Qfloor_Z k). by apply Qfloor_resp_le. }
  destruct (Z.eq_dec (Qfloor x) k) as [He|Hne].
  - assert (x - inject_Z (Qfloor x) <= 0)%Q as H0 by (rewrite He; lra).
    destruct (Qcompare_spec (x - inject_Z (Qfloor x)) (1 # 2)) as [H|H|H];
      lra || lia.
  - destruct (Qcompare _ _); [destruct (Z.even _)|..]; lia.
Qed.

Lemma Qpower2_pos e : (0 < Qpower 2 e)%Q.
Proof. by apply Qpower_0_lt. Qed.

Lemma Qpower2_inject e : 0 <= e -> (Qpower 2 e == inject_Z (2 ^ e))%Q.
Proof. intros He. by rewrite Zpower_Qpower. Qed.

(** The power of two found is not above the number. *)
Lemma floor_log2_le a : (0 < a)%Q -> (Qpower 2 (floor_log2 a) <= a)%Q.
Proof.
  intros Ha. unfold floor_log2.
  destruct (Qle_bool _ a) eqn:Hc; [by apply Qle_bool_iff|].
  destruct a as [n d]. cbn [Qnum Qden].
  assert (0 < n) as Hn by (unfold Qlt in Ha; simpl in Ha; lia).
  pose proof (Z.log2_spec n Hn) as [Hln _].
  pose proof (Z.log2_spec (Z.pos d) ltac:(lia)) as [_ Hld].
  pose proof (Z.log2_nonneg n) as H0n.
  pose proof (Z.log2_nonneg (Z.pos d)) as H0d.
  replace (Z.log2 n - Z.log2 (Z.pos d) - 1)
    with (Z.log2 n - Z.succ (Z.log2 (Z.pos d))) by lia.
  rewrite Qpower_minus by done.
  rewrite !Qpower2_inject by lia.
  rewrite (Qmake_Qdiv n d).
  assert (0 < 2 ^ Z.succ (Z.log2 (Z.pos d))) as Hp by lia.
  apply Qle_shift_div_r; [by rewrite <- (Zlt_Qlt 0)|].
  rewrite Zle_Qle in Hln. rewrite Zlt_Qlt in Hld.
  assert (0 < inject_Z (Z.pos d))%Q as Hd by (by rewrite <- (Zlt_Qlt 0)).
  assert (0 < inject_Z n)%Q as Hn' by (by rewrite <- (Zlt_Qlt 0)).
  eapply Qle_trans; [exact Hln|].
  set (x := inject_Z n) in *. set (y := inject_Z (Z.pos d)) in *.
  set (z := inject_Z (2 ^ Z.succ (Z.log2 (Z.pos d)))) in *.
  assert (x == x / y * y)%Q as Hx by (field; lra).
  rewrite Hx at 1. apply Qmult_le_l.
  - apply Qlt_shift_div_l; lra.
  - lra.
Qed.

Lemma nearest_nonneg a : (0 <= a)%Q -> (0 <= nearest a)%Q.
Proof.
  intros Ha. unfold nearest. set (ulp := Qpower 2 _).
  assert (0 < ulp)%Q as Hu by apply Qpower2_pos.
  apply Qmult_le_0_compat; [|lra].
  rewrite <- (Zle_Qle 0).
  etrans; [|apply round_half_even_floor].
  rewrite <- (Qfloor_Z 0). apply Qfloor_resp_le.
  apply Qle_shift_div_l; [done|]. change (inject_Z 0) with 0%Q. lra.
Qed.

(** An integer that is a double is on the grid of every number that is
    not past [2^53]. *)
Lemma integer_on_grid k x :
  x <= 0 -> (inject_Z k == inject_Z (k * 2 ^ (- x)) * Qpower 2 x)%Q.
Proof.
  intros Hx. rewrite inject_Z_mult, <- Qpower2_inject by lia.
  rewrite Qpower_opp. field. pose proof (Qpower2_pos x). lra.
Qed.

(** Rounding does not take a number below an integer it has reached,
    as long as the integer is a double itself. *)
Lemma nearest_reaches a k :
  0 < k <= 2 ^ 53 -> (inject_Z k <= a)%Q -> (inject_Z k <= nearest a)%Q.
Proof.
  intros [Hk Hmax] Ha.
  assert (0 < inject_Z k)%Q as Hk' by (by rewrite <- (Zlt_Qlt 0)).
  pose proof (floor_log2_le a ltac:(lra)) as Hlog.
  unfold nearest.
  set (e := floor_log2 a) in *. set (x := Z.max (e - 52) (-1074)).
  pose proof (Qpower2_pos x) as Hu.
  pose proof (round_half_even_floor (a / Qpower 2 x)) as Hm.
  rewrite Zle_Qle in Hm.
  destruct (Z.le_gt_cases x 0) as [Hx|Hx].
  - rewrite (integer_on_grid k x Hx) at 1.
    apply Qmult_le_compat_r; [|lra].
    eapply Qle_trans; [|exact Hm]. rewrite <- Zle_Qle.
    rewrite <- (Qfloor_Z (k * 2 ^ (- x))). apply Qfloor_resp_le.
    apply Qle_shift_div_l; [done|]. rewrite <- (integer_on_grid k x Hx). lra.
  - assert (x = e - 52) as Hxe by lia.
    assert (inject_Z (2 ^ 52) <= a / Qpower 2 x)%Q as Hbig.
    { apply Qle_shift_div_l; [done|].
      rewrite <- Qpower2_inject, <- Qpower_plus by done.
      by replace (52 + x) with e by lia. }
    apply Qfloor_resp_le in Hbig. rewrite Qfloor_Z in Hbig.
    rewrite Zle_Qle in Hbig.
    assert (inject_Z k <= inject_Z (2 ^ 52) * Qpower 2 1)%Q as Hlim.
    { rewrite <- Qpower2_inject, <- Qpower_plus by done.
      rewrite Qpower2_inject by done. by rewrite <- Zle_Qle. }
    eapply Qle_trans; [exact Hlim|].
    apply Qmult_le_compat_nonneg.
    + split; [by rewrite <- (Zle_Qle 0)|]. eapply Qle_trans; [exact Hbig|exact Hm].
    + split; [by apply Qlt_le_weak, Qpower2_pos|].
      apply Qpower_le_compat_l; [lia|done].
Qed.

(** Nor does it take a number past an integer it has not passed. *)
Lemma nearest_stays a k :
  k <= 2 ^ 53 -> (0 < a)%Q -> (a <= inject_Z k)%Q -> (nearest a <= inject_Z k)%Q.
Proof.
  intros Hmax Hpos Ha.
  pose proof (floor_log2_le a Hpos) as Hlog.
  unfold nearest.
  set (e := floor_log2 a) in *. set (x := Z.max (e - 52) (-1074)).
  pose proof (Qpower2_pos x) as Hu.
  assert (e <= 53) as He.
  { apply (Qpower_le_compat_l_inv 2); [|done].
    eapply Qle_trans; [exact Hlog|]. eapply Qle_trans; [exact Ha|].
    rewrite Qpower2_inject by done. by rewrite <- Zle_Qle. }
  destruct (Z.le_gt_cases x 0) as [Hx|Hx].
  - rewrite (integer_on_grid k x Hx).
    apply Qmult_le_compat_r; [|lra].
    rewrite <- Zle_Qle. apply round_half_even_below.
    apply Qle_shift_div_r; [done|]. by rewrite <- (integer_on_grid k x Hx).
  - assert (e = 53) as He' by lia.
    assert (x = 1) as -> by lia. rewrite He' in Hlog.
    rewrite Qpower2_inject in Hlog by done.
    assert (2 ^ 53 <= k) as Hk.
    { rewrite Zle_Qle. eapply Qle_trans; [exact Hlog|exact Ha]. }
    assert (round_half_even (a / Qpower 2 1) <= 2 ^ 52) as Hm.
    { apply round_half_even_below. apply Qle_shift_div_r; [done|].
      eapply Qle_trans; [exact Ha|].
      assert (inject_Z k <= inject_Z (2 ^ 53))%Q as Hk'
        by (by rewrite <- Zle_Qle).
      eapply Qle_trans; [exact Hk'|]. by vm_compute. }
    rewrite Zle_Qle in Hm, Hk.
    eapply Qle_trans; [|exact Hk].
    eapply Qle_trans;
      [apply Qmult_le_compat_r; [exact Hm|by vm_compute]|by vm_compute].
Qed.

(** What rounding gives for a number that is not negative. *)
Lemma binary64_nonneg q :
  (0 <= q)%Q ->
  match binary64 q with
  | Finite r => (0 <= r)%Q
  | Infinity negative => negative = false
  end.
Proof.
  intros Hq. unfold binary64.
  destruct (Qeq_bool (Qabs q) 0); [lra|].
  assert (Qle_bool 0 q = true) as -> by (by apply Qle_bool_iff).
  destruct (Qle_bool _ _); [done|].
  apply nearest_nonneg, Qabs_nonneg.
Qed.

(** The float has reached every integer limit that the number has
    reached, as long as the limit is a double itself. *)
Lemma binary64_reaches q limit :
  - 2 ^ 53 <= limit <= 2 ^ 53 ->
  (inject_Z limit <= q)%Q ->
  float_lt_int (binary64 q) limit = false.
Proof.
  intros [Hmin Hmax] Hq.
  destruct (Qlt_le_dec q 0) as [Hneg|Hpos].
  - (* below zero: the limit is, too *)
    assert (limit < 0) as Hl.
    { apply Z.lt_nge. intros H0. rewrite Zle_Qle in H0.
      change (inject_Z 0) with 0%Q in H0. lra. }
    unfold binary64.
    assert (Qabs q == - q)%Q as Ha by (apply Qabs_neg; lra).
    destruct (Qeq_bool (Qabs q) 0) eqn:Hz.
    { apply Qeq_bool_eq in Hz. lra. }
    assert (Qle_bool 0 q = false) as ->.
    { apply not_true_iff_false. rewrite Qle_bool_iff. lra. }
    pose proof (nearest_stays (Qabs q) (- limit) ltac:(lia) ltac:(lra)) as Hr.
    rewrite inject_Z_opp in Hr. specialize (Hr ltac:(lra)).
    destruct (Qle_bool _ _) eqn:Hover; simpl.
    + apply Qle_bool_iff in Hover.
      assert (inject_Z (2 ^ 53) < Qpower 2 1024)%Q as Hfar by (by vm_compute).
      assert (- inject_Z limit <= inject_Z (2 ^ 53))%Q as Hin.
      { rewrite <- inject_Z_opp, <- Zle_Qle. lia. }
      lra.
    + apply Qltb_ge. lra.
  - destruct (Z.le_gt_cases limit 0) as [Hl|Hl].
    + pose proof (binary64_nonneg q Hpos) as Hsign.
      rewrite Zle_Qle in Hl. change (inject_Z 0) with 0%Q in Hl.
      destruct (binary64 q) as [r|neg]; simpl; [|done].
      apply Qltb_ge. lra.
    + assert (0 < inject_Z limit)%Q as Hl' by (by rewrite <- (Zlt_Qlt 0)).
      unfold binary64.
      assert (Qabs q == q)%Q as Ha by (apply Qabs_pos; lra).
      destruct (Qeq_bool (Qabs q) 0) eqn:Hz.
      { apply Qeq_bool_eq in Hz. lra. }
      assert (Qle_bool 0 q = true) as -> by (apply Qle_bool_iff; lra).
      destruct (Qle_bool _ _); [done|]. simpl.
      apply Qltb_ge. apply nearest_reaches; [lia|lra].
Qed.

(** While the float is below an integer limit that is a double itself,
    so is the number. *)
Lemma binary64_below q limit :
  - 2 ^ 53 <= limit <= 2 ^ 53 ->
  float_lt_int (binary64 q) limit = true ->
  (q < inject_Z limit)%Q.
Proof.
  intros Hl Hlt. apply Qnot_le_lt. intros Hge.
  by rewrite (binary64_reaches q limit Hl Hge) in Hlt.
Qed.

(** The elapsed time is a rounded difference. With [start] the double
    written 0.000003 and [now] the double written 1.000003, the two
    readings are less than a second apart and their float difference is
    one second; so it is with [start] at [2^-60] and [now] at 1. *)
Lemma float_sub_rounds :
  ((2251806569084689 # 2251799813685248)
   - (1770887431076117 # 590295810358705651712) < 1)%Q
  /\ float_lt_int
       (float_sub (2251806569084689 # 2251799813685248)
                  (1770887431076117 # 590295810358705651712)) 1 = false
  /\ (1 - (1 # 1152921504606846976) < 1)%Q
  /\ float_lt_int (float_sub 1 (1 # 1152921504606846976)) 1 = false.
Proof. split_and!; by vm_compute. Qed.



(** ** Leaving the scopes *)

Section Unwinding.
Variable w : world.

Lemma with_unfold {A B} (c : call) (rnew : reply unit) (eng : engine)
    (renter : reply A) (body : A -> M B) (n : counters) :
  with_ (outside c rnew) (outside (Enter eng) renter) (exit_of w eng) body n =
  match rnew with
  | Raises e => (Raised e, [Ev c (Some e)], n)
  | Returns _ =>
      match renter with
      | Raises e => (Raised e, [Ev c None; Ev (Enter eng) (Some e)], n)
      | Returns x =>
          let '(rb, tb, n') := body x n in
          let '(r, tx) := leaving w eng rb in
          (r, Ev c None :: Ev (Enter eng) None :: tb ++ tx, n')
      end
  end.
Proof.
  unfold with_, bind, after, outside, exit_of, ret, raise.
  destruct rnew as [[]|e]; simpl; [|done].
  destruct renter as [x|e]; simpl; [|done].
  destruct (body x n) as [[[b|e|] tb] n']; simpl; [| |by rewrite app_nil_r].
  - by destruct (w_exit w eng None) as [?|?]; simpl; rewrite ?app_nil_r.
  - by destruct (w_exit w eng (Some e)) as [[]|?]; simpl; rewrite ?app_nil_r.
Qed.

Lemma leaving_running {B} eng (rb : res B) :
  (leaving w eng rb).1 = Running <-> rb = Running.
Proof.
  destruct rb as [b|e|]; simpl; [| |done].
  - by destruct (w_exit w eng None).
  - by destruct (w_exit w eng (Some e)) as [[]|].
Qed.

Lemma unwind_running stack r :
  (unwind w stack r).1 = Running <-> r = Running.
Proof.
  revert r. induction stack as [|eng outer IH]; intros r; simpl; [done|].
  destruct (leaving w eng r) as [r1 t1] eqn:E1.
  destruct (unwind w outer r1) as [r2 t2] eqn:E2; simpl.
  rewrite <- (leaving_running eng r), E1. simpl.
  rewrite <- (IH r1), E2. done.
Qed.

(** Every block that is left has its [__exit__] called, innermost first,
    whatever the inner [__exit__] calls answered. *)
Lemma unwind_released stack r :
  r <> Running -> released (unwind w stack r).2 = stack.
Proof.
  revert r. induction stack as [|eng outer IH]; intros r Hr; simpl; [done|].
  destruct (leaving w eng r) as [r1 t1] eqn:E1.
  destruct (unwind w outer r1) as [r2 t2] eqn:E2; simpl.
  rewrite released_app.
  assert (r1 <> Running) as Hr1.
  { intros ->. apply Hr, (leaving_running eng). by rewrite E1. }
  specialize (IH r1 Hr1). rewrite E2 in IH. simpl in IH. rewrite IH.
  destruct r as [[]|e|]; simpl in E1; [| |done]; by injection E1 as <- <-.
Qed.

Lemma unwind_not_left stack : unwind w stack Running = (Running, []).
Proof. induction stack as [|eng outer IH]; simpl; [done|]. by rewrite IH. Qed.

(** The way out calls nothing but [__exit__]. *)
Lemma unwind_only_exits stack r :
  Forall (fun ev => exists eng exc x, ev = Ev (Exit eng exc) x)
         (unwind w stack r).2.
Proof.
  revert r. induction stack as [|eng outer IH]; intros r; simpl; [done|].
  destruct (leaving w eng r) as [r1 t1] eqn:E1.
  specialize (IH r1).
  destruct (unwind w outer r1) as [r2 t2] eqn:E2; simpl in *.
  apply Forall_app. split; [|done].
  destruct r as [[]|e|]; simpl in E1; injection E1 as <- <-;
    repeat constructor; eauto.
Qed.

Lemma only_exits_silent (l : list event) :
  Forall (fun ev => exists eng exc x, ev = Ev (Exit eng exc) x) l ->
  entered l = [] /\ startup_calls l = [] /\ startup_failures l = []
  /\ reports l = [] /\ idle_failures l = []
  /\ Forall (fun ev => is_idle ev = false) l.
Proof.
  induction 1 as [|ev l (eng & exc & x & ->) _ IH]; [done|].
  destruct IH as (IH1 & IH2 & IH3 & IH4 & IH5 & IH6).
  unfold entered, startup_calls, startup_failures, reports, idle_failures in *.
  destruct x; simpl; rewrite ?IH1, ?IH2, ?IH3, ?IH4, ?IH5; auto 10.
Qed.

(** When no [__exit__] swallows or raises, what ends the innermost body
    is what comes out, and every [__exit__] is told of it. *)
Lemma unwind_transparent stack r :
  transparent w ->
  unwind w stack r =
  (r, match r with
      | Done _ => map (fun eng => Ev (Exit eng None) None) stack
      | Raised e => map (fun eng => Ev (Exit eng (Some e)) None) stack
      | Running => []
      end).
Proof.
  intros Hw. induction stack as [|eng outer IH]; simpl.
  - by destruct r.
  - destruct r as [[]|e|]; simpl.
    + rewrite Hw. simpl. by rewrite IH.
    + rewrite Hw. simpl. by rewrite IH.
    + by rewrite unwind_not_left.
Qed.

End Unwinding.

(** ** A run, phase by phase *)

Section Phases.
Variable w : world.
Variable o : Options.
Variable f : string.

Lemma scopes_phases cls fuel n :
  scopes w o f cls fuel n =
  let '(ts, failed) := startup_phase w o f cls in
  let '(r0, ti, n') :=
    match failed with
    | Some e => (Raised e, [], n)
    | None => idle_phase w o fuel n
    end in
  let '(rb, tx) := unwind w (rev (entered ts)) r0 in
  (rb, ts ++ ti ++ tx, n').
Proof.
  unfold scopes, startup_phase. rewrite with_unfold.
  destruct (w_new_dns w _ _) as [[]|e]; [|done].
  destruct (w_enter_dns w) as [srv|e]; [|done].
  rewrite with_unfold.
  destruct (w_new_server w _ _ _) as [[]|e]; simpl.
  2:{ by destruct (w_exit w DnsProxyServer (Some e)) as [[]|]. }
  destruct (w_enter_server w) as [[]|e]; simpl.
  2:{ by destruct (w_exit w DnsProxyServer (Some e)) as [[]|]. }
  rewrite with_unfold.
  destruct (w_new_shaper w _ _ _ _ _) as [[]|e]; simpl.
  2:{ destruct (w_exit w ReplayServer (Some e)) as [[]|e']; simpl.
      - by destruct (w_exit w DnsProxyServer None).
      - by destruct (w_exit w DnsProxyServer (Some e)) as [[]|].
      - by destruct (w_exit w DnsProxyServer (Some e')) as [[]|]. }
  destruct (w_enter_shaper w) as [[]|e]; simpl.
  2:{ destruct (w_exit w ReplayServer (Some e)) as [[]|e']; simpl.
      - by destruct (w_exit w DnsProxyServer None).
      - by destruct (w_exit w DnsProxyServer (Some e)) as [[]|].
      - by destruct (w_exit w DnsProxyServer (Some e')) as [[]|]. }
  fold (idle_phase w o fuel).
  destruct (idle_phase w o fuel n) as [[r0 ti] n'].
  destruct (leaving w TrafficShaper r0) as [r1 t1].
  destruct (leaving w ReplayServer r1) as [r2 t2].
  destruct (leaving w DnsProxyServer r2) as [r3 t3].
  simpl. by rewrite app_nil_r, <- !app_assoc.
Qed.

Lemma handler_reports e n :
  handler e n = (Done tt, [Ev (report_for e) None], n).
Proof. by destruct e. Qed.

(** The whole run, in its phases: the import, the startup, the idle
    loop, the way out, the report. *)
Lemma run_phases fuel :
  run w o f fuel =
  let '(t0, stop) := import_phase w o in
  match stop with
  | Some e => (Raised e, t0)
  | None =>
      let '(ts, failed) := startup_phase w o f (variant_of_configuration o) in
      let '(r0, ti, _) :=
        match failed with
        | Some e => (Raised e, [], initial)
        | None => idle_phase w o fuel initial
        end in
      let '(rb, tx) := unwind w (rev (entered ts)) r0 in
      (match rb with Running => Running | _ => Done tt end,
       t0 ++ ts ++ ti ++ tx
          ++ match rb with Raised e => [Ev (report_for e) None] | _ => [] end)
  end.
Proof.
  unfold run, main, select_server_class, import_phase,
    variant_of_configuration, try_except, after.
  destruct (record o); [|destruct (spdy o)]; simpl.
  1,3: unfold bind, ret; simpl.
  3: unfold bind, outside, ret; destruct (w_import w) as [[]|e]; simpl; [|done].
  all: rewrite scopes_phases.
  all: destruct (startup_phase w o f _) as [ts failed].
  all: destruct (match failed with
                 | Some e => (Raised e, [], initial)
                 | None => idle_phase w o fuel initial
                 end) as [[r0 ti] n'].
  all: destruct (unwind w (rev (entered ts)) r0) as [[[]|e|] tx]; simpl.
  all: rewrite ?handler_reports; simpl.
  all: by rewrite ?app_nil_r, <- ?app_assoc.
Qed.

End Phases.

(** ** The startup phase *)

Lemma startup_phase_facts w o f :
  let '(ts, failed) := startup_phase w o f (variant_of_configuration o) in
  startup_calls ts `prefix_of` startup_plan w o f
  /\ released ts = [] /\ reports ts = [] /\ idle_failures ts = []
  /\ Forall (fun ev => is_idle ev = false) ts
  /\ match failed with
     | None =>
         entered ts = [DnsProxyServer; ReplayServer; TrafficShaper]
         /\ startup_failures ts = []
         /\ startup_calls ts = startup_plan w o f
     | Some e =>
         exists c, startup_failures ts = [(c, e)]
                   /\ entered ts = entered_before c
     end.
Proof.
  unfold startup_phase, startup_plan, dns_callback.
  destruct (w_new_dns w _ _) as [[]|e1];
    [destruct (w_enter_dns w) as [srv|e2];
     [destruct (w_new_server w _ _ _) as [[]|e3];
      [destruct (w_enter_server w) as [[]|e4];
       [destruct (w_new_shaper w _ _ _ _ _) as [[]|e5];
        [destruct (w_enter_shaper w) as [[]|e6]|]|]|]|]|];
    simpl; (split; [|repeat split; eauto; repeat constructor]).
  all: repeat apply prefix_cons; apply prefix_nil.
Qed.

Lemma startup_phase_only_startup w o f cls :
  Forall (fun ev => match ev with Ev c _ => is_startup c = true end)
         (startup_phase w o f cls).1.
Proof.
  unfold startup_phase.
  destruct (w_new_dns w _ _) as [[]|e1];
    [destruct (w_enter_dns w) as [srv|e2];
     [destruct (w_new_server w _ _ _) as [[]|e3];
      [destruct (w_enter_server w) as [[]|e4];
       [destruct (w_new_shaper w _ _ _ _ _) as [[]|e5];
        [destruct (w_enter_shaper w) as [[]|e6]|]|]|]|]|];
    simpl; by repeat constructor.
Qed.

(** ** The idle loop *)

Section Idle.
Variable w : world.
Variable o : Options.

(** The loop only ever calls [time.time()] and [time.sleep(1)], and an
    exception that ends it was raised by one of the two. *)
Lemma idle_emits fuel start n :
  let '(r, t, _) := idle w o fuel start n in
  Forall (fun ev => is_idle ev = true) t
  /\ idle_failures t = match r with Raised e => [e] | _ => [] end.
Proof.
  revert n. induction fuel as [|fuel IH]; intros n; simpl; [done|].
  unfold bind, ret, time_time, time_sleep.
  destruct (negb (truthy_limit (time_limit o))); simpl.
  - destruct (w_sleep w (sleeps n)) as [[]|e]; simpl.
    + match goal with |- context [idle w o fuel start ?n1] =>
        specialize (IH n1); destruct (idle w o fuel start n1) as [[r t] n2]
      end.
      destruct IH as [IH1 IH2]. split; [by constructor|done].
    + split; [by repeat constructor|done].
  - destruct (w_clock w (clock_reads n)) as [now|e]; simpl.
    2:{ split; [by repeat constructor|done]. }
    destruct (match time_limit o with
              | Some limit => float_lt_int (float_sub now start) limit
              | None => true
              end); simpl.
    2:{ split; [by repeat constructor|done]. }
    destruct (w_sleep w (sleeps n)) as [[]|e]; simpl.
    + match goal with |- context [idle w o fuel start ?n1] =>
        specialize (IH n1); destruct (idle w o fuel start n1) as [[r t] n2]
      end.
      destruct IH as [IH1 IH2]. split; [by repeat constructor|done].
    + split; [by repeat constructor|done].
Qed.

Lemma idle_phase_emits fuel n :
  let '(r, t, _) := idle_phase w o fuel n in
  Forall (fun ev => is_idle ev = true) t
  /\ idle_failures t = match r with Raised e => [e] | _ => [] end.
Proof.
  unfold idle_phase, bind, time_time.
  destruct (w_clock w (clock_reads n)) as [start|e]; simpl.
  - match goal with |- context [idle w o fuel start ?n1] =>
      pose proof (idle_emits fuel start n1) as H;
      destruct (idle w o fuel start n1) as [[r t] n2]
    end.
    destruct H as [H1 H2]. split; [by constructor|done].
  - split; [by repeat constructor|done].
Qed.

(** Under a limit, the loop goes on while the clock is below it. *)
Lemma idle_below_limit limit start fuel n :
  time_limit o = Some limit -> limit <> 0 ->
  (forall j, (j < fuel)%nat ->
     elapsed_below w start limit (clock_reads n + j)
     /\ w_sleep w (sleeps n + j) = Returns tt) ->
  idle w o fuel start n =
  (Running, concat (replicate fuel check_and_nap),
   mkCounters (clock_reads n + fuel) (sleeps n + fuel)).
Proof.
  intros Hl Hnz. revert n. induction fuel as [|fuel IH]; intros n Hrun; simpl.
  - destruct n as [c z]. unfold still_running. simpl.
    by rewrite !Nat.add_0_r.
  - destruct (Hrun 0%nat ltac:(lia)) as [(now & Hnow & Hlt) Hnap].
    rewrite !Nat.add_0_r in *.
    unfold bind, ret, time_time, time_sleep, truthy_limit.
    rewrite Hl. apply Z.eqb_neq in Hnz. rewrite Hnz. simpl.
    rewrite Hnow. simpl. rewrite Hlt. simpl. rewrite Hnap. simpl.
    rewrite IH; simpl.
    + do 2 f_equal; f_equal; lia.
    + intros j Hj. specialize (Hrun (S j) ltac:(lia)).
      by rewrite <- !Nat.add_succ_comm in Hrun.
Qed.

(** Under a limit, the loop ends at the first check that finds the clock
    at the limit or past it. *)
Lemma idle_until_limit limit start k fuel n :
  time_limit o = Some limit -> limit <> 0 ->
  (forall j, (j < k)%nat ->
     elapsed_below w start limit (clock_reads n + j)
     /\ w_sleep w (sleeps n + j) = Returns tt) ->
  elapsed_reached w start limit (clock_reads n + k) ->
  (k < fuel)%nat ->
  idle w o fuel start n =
  (Done tt, concat (replicate k check_and_nap) ++ [Ev Time_time None],
   mkCounters (clock_reads n + k + 1) (sleeps n + k)).
Proof.
  intros Hl Hnz. revert fuel n.
  induction k as [|k IH]; intros fuel n Hrun (now & Hnow & Hge) Hfuel;
    (destruct fuel as [|fuel]; [lia|]); simpl.
  - rewrite !Nat.add_0_r in *.
    unfold bind, ret, time_time, truthy_limit.
    rewrite Hl. apply Z.eqb_neq in Hnz. rewrite Hnz. simpl.
    rewrite Hnow. simpl. rewrite Hge. simpl.
    do 2 f_equal; lia.
  - destruct (Hrun 0%nat ltac:(lia)) as [(now0 & Hnow0 & Hlt) Hnap].
    rewrite !Nat.add_0_r in *.
    unfold bind, ret, time_time, time_sleep, truthy_limit.
    rewrite Hl. pose proof Hnz as Hnz'. apply Z.eqb_neq in Hnz'.
    rewrite Hnz'. simpl.
    rewrite Hnow0. simpl. rewrite Hlt. simpl. rewrite Hnap. simpl.
    rewrite (IH fuel); simpl.
    + do 2 f_equal; f_equal; lia.
    + intros j Hj. specialize (Hrun (S j) ltac:(lia)).
      by rewrite <- !Nat.add_succ_comm in Hrun.
    + exists now. split; [|done]. by rewrite <- Nat.add_succ_comm in Hnow.
    + lia.
Qed.

(** Without a limit the loop never reads the clock and never ends of its
    own accord. *)
Lemma idle_no_limit_not_done start fuel n :
  truthy_limit (time_limit o) = false ->
  (idle w o fuel start n).1.1 <> Done tt
  /\ Forall (fun ev => exists x, ev = Ev (Time_sleep 1) x)
            (idle w o fuel start n).1.2.
Proof.
  intros Hl. revert n. induction fuel as [|fuel IH]; intros n; simpl; [done|].
  unfold bind, ret, time_sleep. rewrite Hl. simpl.
  destruct (w_sleep w (sleeps n)) as [[]|e]; simpl.
  - match goal with |- context [idle w o fuel start ?n1] =>
      specialize (IH n1); destruct (idle w o fuel start n1) as [[r t] n2]
    end.
    simpl in *. destruct IH as [IH1 IH2]. split; [done|].
    constructor; eauto.
  - split; [done|]. repeat constructor. eauto.
Qed.

Lemma idle_no_limit_naps start fuel n :
  truthy_limit (time_limit o) = false ->
  (forall j, (j < fuel)%nat -> w_sleep w (sleeps n + j) = Returns tt) ->
  idle w o fuel start n =
  (Running, replicate fuel (Ev (Time_sleep 1) None),
   mkCounters (clock_reads n) (sleeps n + fuel)).
Proof.
  intros Hl. revert n. induction fuel as [|fuel IH]; intros n Hnap; simpl.
  - destruct n as [c z]. unfold still_running. simpl. by rewrite Nat.add_0_r.
  - unfold bind, ret, time_sleep. rewrite Hl. simpl.
    pose proof (Hnap 0%nat ltac:(lia)) as H0. rewrite Nat.add_0_r in H0.
    rewrite H0. simpl. rewrite IH; simpl.
    + do 2 f_equal. lia.
    + intros j Hj. specialize (Hnap (S j) ltac:(lia)).
      by rewrite <- Nat.add_succ_comm in Hnap.
Qed.

End Idle.

(** ** What the observers see of a run *)

Lemma import_phase_facts w o :
  let '(t0, stop) := import_phase w o in
  entered t0 = [] /\ released t0 = [] /\ startup_calls t0 = []
  /\ startup_failures t0 = [] /\ reports t0 = [] /\ idle_failures t0 = []
  /\ Forall (fun ev => is_idle ev = false) t0
  /\ (forall e, stop = Some e <->
                record o = false /\ spdy o = true /\ w_import w = Raises e).
Proof.
  unfold import_phase.
  destruct (record o) eqn:Hr; [|destruct (spdy o) eqn:Hs]; simpl.
  - split_and!; try done. intros e. split; [done|]. by intros (? & _).
  - destruct (w_import w) as [[]|e'] eqn:Hw; simpl;
      split_and!; try done; try by repeat constructor.
    + intros e. split; [done|]. by intros (_ & _ & ?).
    + intros e. split; [by intros [= ->]|]. by intros (_ & _ & [= ->]).
  - split_and!; try done. intros e. split; [done|]. by intros (_ & ? & _).
Qed.

(** A run that got past the import, seen through each observer. *)
Lemma run_observed w o f fuel :
  (import_phase w o).2 = None ->
  let t0 := (import_phase w o).1 in
  let '(ts, failed) := startup_phase w o f (variant_of_configuration o) in
  let '(r0, ti, _) :=
    match failed with
    | Some e => (Raised e, [], initial)
    | None => idle_phase w o fuel initial
    end in
  let '(rb, tx) := unwind w (rev (entered ts)) r0 in
  let rep := match rb with Raised e => [Ev (report_for e) None] | _ => [] end in
  run w o f fuel =
    (match rb with Running => Running | _ => Done tt end,
     t0 ++ ts ++ ti ++ tx ++ rep)
  /\ entered (run w o f fuel).2 = entered ts
  /\ released (run w o f fuel).2 = released tx
  /\ startup_calls (run w o f fuel).2 = startup_calls ts
  /\ startup_failures (run w o f fuel).2 = startup_failures ts
  /\ reports (run w o f fuel).2 =
       match rb with Raised e => [report_for e] | _ => [] end
  /\ idle_failures (run w o f fuel).2 =
       match failed, r0 with None, Raised e => [e] | _, _ => [] end
  /\ Forall (fun ev => is_idle ev = true) ti
  /\ Forall (fun ev => exists eng exc x, ev = Ev (Exit eng exc) x) tx.
Proof.
  intros Hstop. rewrite run_phases.
  pose proof (import_phase_facts w o) as Hi.
  pose proof (startup_phase_facts w o f) as Hs.
  destruct (import_phase w o) as [t0 stop]. simpl in Hstop. subst stop. simpl.
  destruct (startup_phase w o f _) as [ts failed].
  assert (let '(r0, ti, _) :=
            match failed with
            | Some e => (Raised e, [], initial)
            | None => idle_phase w o fuel initial
            end in
          Forall (fun ev => is_idle ev = true) ti
          /\ idle_failures ti =
               match failed, r0 with None, Raised e => [e] | _, _ => [] end)
    as Hidle.
  { destruct failed as [e|]; [done|].
    pose proof (idle_phase_emits w o fuel initial) as H.
    by destruct (idle_phase w o fuel initial) as [[r0 ti] n']. }
  destruct (match failed with
            | Some e => (Raised e, [], initial)
            | None => idle_phase w o fuel initial
            end) as [[r0 ti] n'].
  destruct Hidle as [Hti Hfail].
  pose proof (unwind_only_exits w (rev (entered ts)) r0) as Hx.
  destruct (unwind w (rev (entered ts)) r0) as [rb tx]. simpl in Hx.
  destruct Hi as (I1 & I2 & I3 & I4 & I5 & I6 & _).
  destruct Hs as (_ & S2 & S3 & S4 & _).
  destruct (idle_only_silent ti Hti) as (T1 & T2 & T3 & T4 & T5).
  destruct (only_exits_silent tx Hx) as (X1 & X2 & X3 & X4 & X5 & _).
  simpl. split; [done|].
  rewrite !entered_app, !released_app, !startup_calls_app,
    !startup_failures_app, !reports_app, !idle_failures_app.
  rewrite I1, I2, I3, I4, I5, I6, S2, S3, S4, T1, T2, T3, T4, T5,
    X1, X2, X3, X4, X5, Hfail.
  simpl. rewrite ?app_nil_r.
  repeat split; try done; destruct rb as [[]|[]|]; simpl; by rewrite ?app_nil_r.
Qed.

(** ** Every run *)

Lemma run_import_fails w o f fuel e :
  (import_phase w o).2 = Some e ->
  run w o f fuel = (Raised e, [Ev Import_replayspdyserver (Some e)]).
Proof.
  intros Hstop. rewrite run_phases. unfold import_phase in *.
  destruct (record o); [done|]. destruct (spdy o); [|done].
  simpl in *. by rewrite Hstop.
Qed.

(** The startup calls of any run are the first calls of the plan. *)
Lemma run_startup_calls w o f fuel :
  startup_calls (run w o f fuel).2 `prefix_of` startup_plan w o f.
Proof.
  destruct (import_phase w o).2 as [e|] eqn:Hstop.
  - rewrite (run_import_fails _ _ _ _ _ Hstop). apply prefix_nil.
  - pose proof (run_observed w o f fuel Hstop) as H.
    pose proof (startup_phase_facts w o f) as Hs.
    destruct (startup_phase w o f _) as [ts failed].
    destruct (match failed with
              | Some e => (Raised e, [], initial)
              | None => idle_phase w o fuel initial
              end) as [[r0 ti] n'].
    destruct (unwind w (rev (entered ts)) r0) as [rb tx].
    destruct H as (_ & _ & _ & -> & _). by destruct Hs as (? & _).
Qed.

(** Every startup call in a trace is a call of the plan. *)
Lemma run_startup_planned w o f fuel c x :
  Ev c x ∈ (run w o f fuel).2 -> is_startup c = true ->
  c ∈ startup_plan w o f.
Proof.
  intros Hin Hc. eapply elem_of_prefix; [|apply (run_startup_calls w o f fuel)].
  apply list_elem_of_omap. exists (Ev c x). split; [done|]. by rewrite Hc.
Qed.



Lemma idle_ext w o o' fuel start n :
  time_limit o = time_limit o' ->
  idle w o fuel start n = idle w o' fuel start n.
Proof.
  intros Hl. revert n. induction fuel as [|fuel IH]; intros n; [done|].
  cbn [idle]. rewrite <- Hl.
  match goal with |- bind ?c _ n = _ => set (cond := c) end.
  unfold bind at 1 3. destruct (cond n) as [[[continue|e|] t] n1]; [|done|done].
  destruct continue; [|done].
  unfold bind. destruct (time_sleep w 1 n1) as [[[[]|e|] t'] n2]; [|done|done].
  by rewrite IH.
Qed.

(** The import of [replayspdyserver] can only be the first event of a run,
    and only of a run with [spdy] and without [record]. *)
Lemma run_import_first w o f fuel i ev :
  (run w o f fuel).2 !! i = Some ev -> is_import ev = true ->
  i = 0%nat /\ record o = false /\ spdy o = true.
Proof.
  intros Hi Hev.
  destruct (import_phase w o).2 as [e|] eqn:Hstop.
  + rewrite (run_import_fails _ _ _ _ _ Hstop) in Hi.
    pose proof (import_phase_facts w o) as Hf.
    destruct (import_phase w o) as [t0 stop]. simpl in Hstop. subst stop.
    destruct Hf as (_ & _ & _ & _ & _ & _ & _ & Hf).
    destruct (Hf e) as [Hf1 _]. destruct (Hf1 eq_refl) as (? & ? & _).
    by destruct i.
  + pose proof (run_observed w o f fuel Hstop) as H.
    pose proof (startup_phase_only_startup w o f (variant_of_configuration o))
      as Honly.
    unfold import_phase in *.
    destruct (startup_phase w o f _) as [ts failed]. simpl in Honly.
    destruct (match failed with
              | Some e => (Raised e, [], initial)
              | None => idle_phase w o fuel initial
              end) as [[r0 ti] n'].
    destruct (unwind w (rev (entered ts)) r0) as [rb tx].
    destruct H as (Hr & _ & _ & _ & _ & _ & _ & Hti & Htx).
    rewrite Hr in Hi. simpl in Hi.
    assert (forall l, Forall (fun ev => is_import ev = false) l ->
                      forall j, l !! j = Some ev -> False) as Hno.
    { intros l Hl j Hj. rewrite Forall_forall in Hl.
      apply list_elem_of_lookup_2 in Hj. apply Hl in Hj. congruence. }
    assert (Forall (fun ev => is_import ev = false)
              (ts ++ ti ++ tx ++ match rb with
                                 | Raised e => [Ev (report_for e) None]
                                 | _ => []
                                 end)) as Hrest.
    { apply Forall_app. split.
      { eapply Forall_impl; [exact Honly|]. by intros [[] ?]. }
      apply Forall_app. split.
      { eapply Forall_impl; [exact Hti|]. by intros [[] ?]. }
      apply Forall_app. split.
      { eapply Forall_impl; [exact Htx|]. by intros ? (? & ? & ? & ->). }
      destruct rb as [[]|[]|]; by repeat constructor. }
    destruct (record o); [|destruct (spdy o)]; simpl in *.
    * by destruct (Hno _ Hrest i Hi).
    * destruct i as [|i]; [done|]. by destruct (Hno _ Hrest i Hi).
    * by destruct (Hno _ Hrest i Hi).
Qed.



(** ** The parsed values *)




(** When the traffic shaper has been entered, the whole plan was carried
    out. *)
Lemma run_all_entered w o f fuel :
  TrafficShaper ∈ entered (run w o f fuel).2 ->
  startup_calls (run w o f fuel).2 = startup_plan w o f
  /\ entered (run w o f fuel).2 = [DnsProxyServer; ReplayServer; TrafficShaper]
  /\ startup_failures (run w o f fuel).2 = [].
Proof.
  intros Hin.
  destruct (import_phase w o).2 as [e|] eqn:Hstop.
  { rewrite (run_import_fails _ _ _ _ _ Hstop) in Hin.
    by apply elem_of_nil in Hin. }
  pose proof (run_observed w o f fuel Hstop) as H.
  pose proof (startup_phase_facts w o f) as Hs.
  destruct (startup_phase w o f _) as [ts failed].
  destruct (match failed with
            | Some e => (Raised e, [], initial)
            | None => idle_phase w o fuel initial
            end) as [[r0 ti] n'].
  destruct (unwind w (rev (entered ts)) r0) as [rb tx].
  destruct H as (_ & He & _ & Hc & Hf & _). rewrite He, Hc, Hf in *.
  destruct Hs as (_ & _ & _ & _ & _ & Hfailed).
  destruct failed as [e|]; [|by destruct Hfailed as (? & ? & ?)].
  destruct Hfailed as (c & _ & Hent). rewrite Hent in Hin.
  destruct c; simpl in Hin; try destruct e0;
    repeat (apply elem_of_cons in Hin as [Hin|Hin]; [discriminate|]);
    by apply elem_of_nil in Hin.
Qed.

(** A run that has ended has released what it entered, innermost first. *)
Lemma run_released w o f fuel :
  (run w o f fuel).1 <> Running ->
  released (run w o f fuel).2 = rev (entered (run w o f fuel).2).
Proof.
  intros Hend.
  destruct (import_phase w o).2 as [e|] eqn:Hstop.
  { by rewrite (run_import_fails _ _ _ _ _ Hstop). }
  pose proof (run_observed w o f fuel Hstop) as H.
  destruct (startup_phase w o f _) as [ts failed].
  destruct (match failed with
            | Some e => (Raised e, [], initial)
            | None => idle_phase w o fuel initial
            end) as [[r0 ti] n'].
  pose proof (unwind_released w (rev (entered ts)) r0) as Hrel.
  pose proof (unwind_running w (rev (entered ts)) r0) as Hrun.
  destruct (unwind w (rev (entered ts)) r0) as [rb tx]. simpl in *.
  destruct H as (Hr & He & Hx & _). rewrite He, Hx.
  apply Hrel. intros ->. apply Hend. rewrite Hr. simpl.
  destruct Hrun as [_ Hrun]. by rewrite Hrun.
Qed.

(** What is reported, given what came out of the scopes. *)
Lemma run_report_of_failure w o f fuel c e :
  (c, e) ∈ startup_failures (run w o f fuel).2 ->
  entered_before c = [] \/ transparent w ->
  (run w o f fuel).1 = Done tt
  /\ reports (run w o f fuel).2 = [report_for e]
  /\ last (run w o f fuel).2 = Some (Ev (report_for e) None).
Proof.
  intros Hin Hpass.
  destruct (import_phase w o).2 as [e0|] eqn:Hstop.
  { rewrite (run_import_fails _ _ _ _ _ Hstop) in Hin.
    by apply elem_of_nil in Hin. }
  pose proof (run_observed w o f fuel Hstop) as H.
  pose proof (startup_phase_facts w o f) as Hs.
  destruct (startup_phase w o f _) as [ts failed].
  destruct failed as [e1|].
  2:{ destruct (idle_phase w o fuel initial) as [[r0 ti] n'].
      destruct (unwind w (rev (entered ts)) r0) as [rb tx].
      destruct H as (_ & _ & _ & _ & Hf & _).
      destruct Hs as (_ & _ & _ & _ & _ & _ & Hnone & _).
      rewrite Hf, Hnone in Hin. by apply elem_of_nil in Hin. }
  destruct Hs as (_ & _ & _ & _ & _ & c1 & Hfail & Hent).
  assert (unwind w (rev (entered ts)) (Raised e1)
          = (Raised e1, (unwind w (rev (entered ts)) (Raised e1)).2)) as Hu.
  { destruct Hpass as [Hnone|Hw].
    - destruct (unwind w (rev (entered ts)) (Raised e1)) as [rb tx] eqn:Hu.
      destruct H as (_ & _ & _ & _ & Hf & _).
      rewrite Hf, Hfail in Hin.
      apply list_elem_of_singleton in Hin as [= -> ->].
      rewrite Hent, Hnone in Hu. simpl in Hu. by injection Hu as <- <-.
    - by rewrite unwind_transparent. }
  rewrite Hu in H. destruct H as (Hr & _ & _ & _ & Hf & Hrep & _).
  rewrite Hf, Hfail in Hin. apply list_elem_of_singleton in Hin as [= -> ->].
  rewrite Hrep, Hr. simpl. split_and!; [done|done|].
  by rewrite !app_assoc, last_snoc.
Qed.


(** A run whose startup calls all return has the three engines up. *)
Lemma run_starts_up w o f fuel :
  starts_up w o f ->
  entered (run w o f fuel).2 = [DnsProxyServer; ReplayServer; TrafficShaper]
  /\ startup_calls (run w o f fuel).2 = startup_plan w o f
  /\ startup_failures (run w o f fuel).2 = [].
Proof.
  intros (Hi & H1 & (srv & H2) & H3 & H4 & H5 & H6).
  assert ((import_phase w o).2 = None) as Hstop.
  { unfold import_phase. destruct (record o); [done|].
    destruct (spdy o); [|done]. by rewrite Hi. }
  pose proof (run_observed w o f fuel Hstop) as H.
  pose proof (startup_phase_facts w o f) as Hs.
  unfold startup_phase in H, Hs. rewrite H1, H2, H3, H4, H5, H6 in H, Hs.
  cbv zeta in H, Hs. cbn [app] in H, Hs.
  destruct (idle_phase w o fuel initial) as [[r0 ti] n'].
  match type of H with
  | context [unwind w ?st r0] => destruct (unwind w st r0) as [rb tx]
  end.
  destruct H as (_ & -> & _ & -> & -> & _).
  destruct Hs as (_ & _ & _ & _ & _ & Hent & Hnone & Hplan).
  done.
Qed.

(** * The claims *)

(** ** The run loop *)

(** C5: the run loop looks at the clock once per turn and sleeps one second
    between two looks. With a non-zero [time_limit] it goes on while the
    time elapsed since [start], the float [time.time() - start], is below
    the limit, and ends at the first look that finds the limit reached.
    For every limit that is a double itself, a look finds the limit
    reached whenever the clock is at least the limit past [start], and
    finds the time elapsed below the limit only when it is. With no
    [time_limit], or with zero, it never looks at the clock and never
    ends by itself: it is still running after any number of naps, unless
    a nap raises. *)
Theorem run_loop_checks_limit_each_second
    (w : world) (o : Options) (start : Q) (n : counters) :
  (forall limit i now,
      - 2 ^ 53 <= limit <= 2 ^ 53 ->
      w_clock w i = Returns now ->
      ((inject_Z limit <= now - start)%Q -> elapsed_reached w start limit i)
      /\ (elapsed_below w start limit i -> (now - start < inject_Z limit)%Q))
  /\ (forall limit k fuel,
      time_limit o = Some limit -> limit <> 0 ->
      (forall j, (j < k)%nat ->
         elapsed_below w start limit (clock_reads n + j)
         /\ w_sleep w (sleeps n + j) = Returns tt) ->
      elapsed_reached w start limit (clock_reads n + k) ->
      (k < fuel)%nat ->
      idle w o fuel start n =
      (Done tt, concat (replicate k check_and_nap) ++ [Ev Time_time None],
       mkCounters (clock_reads n + k + 1) (sleeps n + k)))
  /\ (forall limit fuel,
        time_limit o = Some limit -> limit <> 0 ->
        (forall j, (j < fuel)%nat ->
           elapsed_below w start limit (clock_reads n + j)
           /\ w_sleep w (sleeps n + j) = Returns tt) ->
        idle w o fuel start n =
        (Running, concat (replicate fuel check_and_nap),
         mkCounters (clock_reads n + fuel) (sleeps n + fuel)))
  /\ (time_limit o = None \/ time_limit o = Some 0 ->
      forall fuel,
        (idle w o fuel start n).1.1 <> Done tt
        /\ Forall (fun ev => exists x, ev = Ev (Time_sleep 1) x)
                  (idle w o fuel start n).1.2
        /\ (forall e, (idle w o fuel start n).1.1 = Raised e ->
                      idle_failures (idle w o fuel start n).1.2 = [e])
        /\ ((forall j, (j < fuel)%nat -> w_sleep w (sleeps n + j) = Returns tt) ->
            idle w o fuel start n =
            (Running, replicate fuel (Ev (Time_sleep 1) None),
             mkCounters (clock_reads n) (sleeps n + fuel)))).
Proof.
  split; [|split; [|split]].
  - intros limit i now Hl Hnow. split.
    + intros Hpast. exists now. split; [done|]. by apply binary64_reaches.
    + intros (now' & Hnow' & Hlt). rewrite Hnow in Hnow'.
      injection Hnow' as <-. by apply binary64_below.
  - intros limit k fuel Hl Hnz Hrun Hend Hfuel.
    by apply (idle_until_limit w o limit).
  - intros limit fuel Hl Hnz Hrun. by apply (idle_below_limit w o limit).
  - intros Hl fuel.
    assert (truthy_limit (time_limit o) = false) as Hf
      by (by destruct Hl as [-> | ->]).
    destruct (idle_no_limit_not_done w o start fuel n Hf) as [H1 H2].
    split_and!; [done|done| |by apply idle_no_limit_naps].
    intros e He. pose proof (idle_emits w o fuel start n) as H.
    destruct (idle w o fuel start n) as [[r t] n']. simpl in *.
    subst r. by destruct H.
Qed.

(** With a limit of two seconds and a clock that advances one second per
    reading, the loop naps once and ends at its second look. *)
Lemma run_loop_checks_limit_each_second_witness :
  idle steady (limited 2) 5 0 (mkCounters 1 0) =
  (Done tt, [Ev Time_time None; Ev (Time_sleep 1) None; Ev Time_time None],
   mkCounters 3 1).
Proof.
  destruct (run_loop_checks_limit_each_second
              steady (limited 2) 0 (mkCounters 1 0)) as (Hreach & Hend & _).
  apply (Hend 2 1%nat 5%nat).
  - reflexivity.
  - discriminate.
  - intros j Hj. assert (j = 0%nat) as -> by lia.
    split; [|reflexivity]. exists (inject_Z 1). split; reflexivity.
  - apply (Hreach 2 2%nat (inject_Z 2)); [lia|reflexivity|discriminate].
  - lia.
Defined.

(** ** Acquisition and release *)

(** C2: in every run the engines are started in the order DNS proxy, replay
    server, traffic shaper, the replay server being built with the
    [real_dns_lookup] of the DNS server. When the startup calls return,
    [main] makes all six of them and enters the three engines; and once
    the shaper has been entered and the run has ended, they have been
    released in the reverse order, after the idle loop and after every
    startup call. *)
Theorem engines_acquired_in_order_released_in_reverse
    (w : world) (o : Options) (f : string) (fuel : nat) :
  let r := (run w o f fuel).1 in
  let tr := (run w o f fuel).2 in
  startup_calls tr `prefix_of` startup_plan w o f
  /\ (forall srv, w_enter_dns w = Returns srv ->
        dns_callback w = real_dns_lookup srv)
  /\ (starts_up w o f ->
        startup_calls tr = startup_plan w o f
        /\ entered tr = [DnsProxyServer; ReplayServer; TrafficShaper]
        /\ (r <> Running ->
            released tr = [TrafficShaper; ReplayServer; DnsProxyServer]))
  /\ (TrafficShaper ∈ entered tr ->
        startup_calls tr = startup_plan w o f
        /\ entered tr = [DnsProxyServer; ReplayServer; TrafficShaper])
  /\ (TrafficShaper ∈ entered tr -> r <> Running ->
        released tr = [TrafficShaper; ReplayServer; DnsProxyServer])
  /\ exists t1 t2,
       tr = t1 ++ t2 /\ released t1 = [] /\ startup_calls t2 = []
       /\ Forall (fun ev => is_idle ev = false) t2.
Proof.
  intros r tr. subst r tr. split; [apply run_startup_calls|].
  split; [by intros srv Hsrv; unfold dns_callback; rewrite Hsrv|].
  split.
  { intros Hup. destruct (run_starts_up w o f fuel Hup) as (Hent & Hplan & _).
    split_and!; [done|done|].
    intros Hend. by rewrite run_released, Hent. }
  split.
  { intros Hin. by destruct (run_all_entered w o f fuel Hin) as (? & ? & _). }
  split.
  { intros Hin Hend. rewrite run_released by done.
    by destruct (run_all_entered w o f fuel Hin) as (_ & -> & _). }
  destruct (import_phase w o).2 as [e|] eqn:Hstop.
  { rewrite (run_import_fails _ _ _ _ _ Hstop). simpl.
    exists [], [Ev Import_replayspdyserver (Some e)].
    split_and!; try done. by repeat constructor. }
  pose proof (run_observed w o f fuel Hstop) as H.
  pose proof (startup_phase_facts w o f) as Hs.
  pose proof (import_phase_facts w o) as Hi.
  destruct (import_phase w o) as [t0 stop]. simpl in *.
  destruct (startup_phase w o f _) as [ts failed].
  destruct (match failed with
            | Some e => (Raised e, [], initial)
            | None => idle_phase w o fuel initial
            end) as [[r0 ti] n'].
  destruct (unwind w (rev (entered ts)) r0) as [rb tx]. simpl in *.
  destruct H as (Hr & _ & _ & _ & _ & _ & _ & Hti & Htx).
  destruct Hs as (_ & S2 & _).
  destruct Hi as (_ & I2 & _).
  exists (t0 ++ ts ++ ti), (tx ++ match rb with
                                  | Raised e => [Ev (report_for e) None]
                                  | _ => []
                                  end).
  rewrite Hr. simpl. split; [by rewrite <- !app_assoc|].
  destruct (idle_only_silent ti Hti) as (_ & T2 & _).
  destruct (only_exits_silent tx Htx) as (_ & X2 & _ & _ & _ & X6).
  rewrite !released_app, startup_calls_app, I2, S2, T2, X2.
  split_and!; try done.
  - by destruct rb as [[]|[]|].
  - apply Forall_app. split; [done|].
    destruct rb as [[]|[]|]; by repeat constructor.
Qed.

(** In the steady world, with a limit of two seconds, the whole plan is
    carried out, the three engines are entered, and they are released
    innermost first. *)
Lemma engines_acquired_in_order_released_in_reverse_witness :
  startup_calls (run steady (limited 2) "archive.wpr" 5).2
    = startup_plan steady (limited 2) "archive.wpr"
  /\ entered (run steady (limited 2) "archive.wpr" 5).2
    = [DnsProxyServer; ReplayServer; TrafficShaper]
  /\ released (run steady (limited 2) "archive.wpr" 5).2
    = [TrafficShaper; ReplayServer; DnsProxyServer].
Proof.
  pose proof (engines_acquired_in_order_released_in_reverse
                steady (limited 2) "archive.wpr" 5) as H.
  simpl in H. destruct H as (_ & _ & Hup & H3 & H4 & _).
  destruct Hup as (U1 & U2 & U3).
  { unfold starts_up. split_and!; try reflexivity. by eexists. }
  split_and!.
  - exact U1.
  - exact U2.
  - apply U3. discriminate.
Defined.

(** C3: when a startup call fails, [main] ends, and the engines entered
    before the failing call have all been released by then, innermost
    first, before anything is reported. *)
Theorem partial_startup_is_released
    (w : world) (o : Options) (f : string) (fuel : nat) (c : call) (e : exn) :
  (c, e) ∈ startup_failures (run w o f fuel).2 ->
  (run w o f fuel).1 = Done tt
  /\ entered (run w o f fuel).2 = entered_before c
  /\ released (run w o f fuel).2 = rev (entered_before c)
  /\ exists t1 t2,
       (run w o f fuel).2 = t1 ++ t2
       /\ entered t1 = entered_before c
       /\ released t1 = rev (entered_before c)
       /\ reports t1 = []
       /\ (t2 = [] \/ exists e', t2 = [Ev (report_for e') None]).
Proof.
  intros Hin.
  destruct (import_phase w o).2 as [e0|] eqn:Hstop.
  { rewrite (run_import_fails _ _ _ _ _ Hstop) in Hin. simpl in Hin.
    by apply elem_of_nil in Hin. }
  pose proof (run_observed w o f fuel Hstop) as H.
  pose proof (startup_phase_facts w o f) as Hs.
  pose proof (import_phase_facts w o) as Hi.
  destruct (import_phase w o) as [t0 stop]. simpl in *.
  destruct (startup_phase w o f _) as [ts failed].
  destruct failed as [e1|].
  2:{ destruct (idle_phase w o fuel initial) as [[r0 ti] n'].
      destruct (unwind w (rev (entered ts)) r0) as [rb tx].
      destruct H as (_ & _ & _ & _ & Hf & _).
      destruct Hs as (_ & _ & _ & _ & _ & _ & Hnone & _).
      rewrite Hf, Hnone in Hin. by apply elem_of_nil in Hin. }
  pose proof (unwind_released w (rev (entered ts)) (Raised e1)) as Hrel.
  pose proof (unwind_running w (rev (entered ts)) (Raised e1)) as Hrun.
  destruct (unwind w (rev (entered ts)) (Raised e1)) as [rb tx]. simpl in *.
  destruct H as (Hr & He & Hx & _ & Hf & _ & _ & _ & Htx).
  destruct Hs as (_ & S2 & S3 & _ & _ & c1 & Hfail & Hent).
  destruct Hi as (I1 & I2 & _ & _ & I5 & _).
  rewrite Hf, Hfail in Hin. apply list_elem_of_singleton in Hin as [= -> ->].
  assert (rb <> Running) as Hend.
  { intros ->. by destruct Hrun as [Hrun _]; specialize (Hrun eq_refl). }
  specialize (Hrel ltac:(done)).
  rewrite He, Hx, Hrel, Hent, Hr. simpl.
  split_and!; [by destruct rb|done|done|].
  destruct (only_exits_silent tx Htx) as (X1 & _ & _ & X4 & _).
  exists (t0 ++ ts ++ tx), (match rb with
                            | Raised e => [Ev (report_for e) None]
                            | _ => []
                            end).
  rewrite !entered_app, !released_app, !reports_app.
  rewrite I1, I2, I5, S2, S3, X1, X4, Hrel, Hent. simpl.
  rewrite ?app_nil_r, <- ?app_assoc.
  split_and!; try done.
  destruct rb as [[]|e'|]; eauto.
Qed.

(** When the traffic shaper cannot be built, the replay server and the
    DNS proxy, entered before, are released in this order, and [main]
    ends. *)
Lemma partial_startup_is_released_witness :
  (run shaper_refused default_options "archive.wpr" 0).1 = Done tt
  /\ released (run shaper_refused default_options "archive.wpr" 0).2
     = [ReplayServer; DnsProxyServer].
Proof.
  pose proof (partial_startup_is_released
                shaper_refused default_options "archive.wpr" 0
                (New_TrafficShaper true "0" "0" "0" "0")
                (TrafficShaperException "Unable to shape traffic")) as H.
  destruct H as (H1 & _ & H3 & _).
  - vm_compute. left.
  - split; [exact H1 | exact H3].
Defined.

(** ** The replay server class *)



(** C9: with both [record] and [spdy] set, record mode wins: the class is
    [RecordHttpProxyServer], [replayspdyserver] is not imported, and the
    run is the run of the same configuration without [spdy]. *)
Theorem record_takes_precedence_over_spdy
    (w : world) (o : Options) (f : string) (fuel : nat) :
  record o = true ->
  variant_of_configuration o = RecordHttpProxyServer
  /\ (forall n, select_server_class w o n = (Done RecordHttpProxyServer, [], n))
  /\ Forall (fun ev => is_import ev = false) (run w o f fuel).2
  /\ (forall cls f' s l x,
        Ev (New_ReplayServer cls f' s l) x ∈ (run w o f fuel).2 ->
        cls = RecordHttpProxyServer)
  /\ forall b, run w (set_spdy b o) f fuel = run w o f fuel.
Proof.
  intros Hrec.
  assert (variant_of_configuration o = RecordHttpProxyServer) as Hv
    by (unfold variant_of_configuration; by rewrite Hrec).
  assert (forall b, run w (set_spdy b o) f fuel = run w o f fuel) as Hsame.
  { intros b. rewrite !run_phases.
    unfold import_phase, variant_of_configuration. simpl. rewrite Hrec.
    change (startup_phase w (set_spdy b o) f RecordHttpProxyServer)
      with (startup_phase w o f RecordHttpProxyServer).
    destruct (startup_phase w o f RecordHttpProxyServer) as [ts [e|]]; [done|].
    unfold idle_phase, bind.
    destruct (time_time w initial) as [[[start|e|] t] n1]; [|done|done].
    by rewrite (idle_ext w (set_spdy b o) o). }
  split_and!; [done| |  | |done].
  - intros n. unfold select_server_class. by rewrite Hrec.
  - apply Forall_forall. intros ev Hin.
    apply list_elem_of_lookup_1 in Hin as [i Hi].
    destruct (is_import ev) eqn:Hev; [|done].
    destruct (run_import_first w o f fuel i ev Hi Hev) as (_ & ? & _).
    congruence.
  - intros cls f' s l x Hin.
    pose proof (run_startup_planned w o f fuel _ _ Hin eq_refl) as Hp.
    unfold startup_plan in Hp. rewrite Hv in Hp.
    among Hp. by injection Hp as -> _ _ _.
Qed.

(** When both flags are given, the run is the one of [--record] alone. *)
Lemma record_takes_precedence_over_spdy_witness :
  variant_of_configuration record_and_spdy = RecordHttpProxyServer
  /\ run steady (set_spdy false record_and_spdy) "archive.wpr" 3
     = run steady record_and_spdy "archive.wpr" 3.
Proof.
  destruct (record_takes_precedence_over_spdy
              steady record_and_spdy "archive.wpr" 3 eq_refl)
    as (H1 & _ & _ & _ & H5).
  split; [exact H1 | apply H5].
Defined.

(** ** The option table *)





(** ** What [main] does with a failure *)

(** C1, as amended: when a startup call fails with a [DnsProxyException]
    or a [TrafficShaperException], and no [__exit__] of an engine entered
    before swallows or replaces it, [main] logs it at critical severity and
    then returns as it does after any other run: what it hands back (and
    the status this leaves the process with) does not tell the failure. *)
Theorem startup_failure_logged_critical_then_normal_return
    (w : world) (o : Options) (f : string) (fuel : nat) (c : call) (e : exn) :
  (c, e) ∈ startup_failures (run w o f fuel).2 ->
  (exists msg, e = DnsProxyException msg \/ e = TrafficShaperException msg) ->
  entered_before c = [] \/ transparent w ->
  (run w o f fuel).1 = Done tt
  /\ exit_status (run w o f fuel).1 = Some 0
  /\ reports (run w o f fuel).2 = [Logging CRITICAL (str_exn e)]
  /\ last (run w o f fuel).2 = Some (Ev (Logging CRITICAL (str_exn e)) None).
Proof.
  intros Hin (msg & He) Hpass.
  destruct (run_report_of_failure w o f fuel c e Hin Hpass) as (Hr & Hrep & Hl).
  rewrite Hr, Hrep, Hl. by destruct He as [-> | ->].
Qed.

(** The traffic shaper cannot be built: the failure is logged at critical
    severity and [main] returns. *)
Lemma startup_failure_logged_critical_then_normal_return_witness :
  (run shaper_refused default_options "archive.wpr" 0).1 = Done tt
  /\ reports (run shaper_refused default_options "archive.wpr" 0).2
     = [Logging CRITICAL "Unable to shape traffic"].
Proof.
  destruct (startup_failure_logged_critical_then_normal_return
              shaper_refused default_options "archive.wpr" 0
              (New_TrafficShaper true "0" "0" "0" "0")
              (TrafficShaperException "Unable to shape traffic"))
    as (H1 & _ & H3 & _).
  - vm_compute. left.
  - eexists. right. reflexivity.
  - right. intros eng exc. reflexivity.
  - split; [exact H1 | exact H3].
Defined.

(** C1, as stated, fails: port 53 is taken, the DNS proxy raises
    [DnsProxyException] when it is built, the failure is logged at
    critical severity, and [main] returns [None]: the status is 0. *)
Lemma startup_failure_exit_status_is_zero :
  (New_DnsProxyServer true true, DnsProxyException "Unable to bind to port 53")
    ∈ startup_failures (run dns_port_taken default_options "archive.wpr" 0).2
  /\ reports (run dns_port_taken default_options "archive.wpr" 0).2
     = [Logging CRITICAL "Unable to bind to port 53"]
  /\ (run dns_port_taken default_options "archive.wpr" 0).1 = Done tt
  /\ ~ (exists code,
          exit_status (run dns_port_taken default_options "archive.wpr" 0).1
            = Some code /\ code <> 0).
Proof.
  split_and!.
  - vm_compute. left.
  - reflexivity.
  - reflexivity.
  - intros (code & Hcode & Hnz). vm_compute in Hcode. congruence.
Qed.




(** C10, as amended: what is raised inside the [try] statement never
    leaves [main]. Whatever comes out of the nested scopes, the clause for
    its class reports it ("Shutting down." at info severity for
    [KeyboardInterrupt], the message at critical severity for
    [DnsProxyException] and [TrafficShaperException], the traceback for
    anything else) and [main] returns. The one exception [main] lets
    through is raised before the [try]: by the import of
    [replayspdyserver], when [spdy] is set and [record] is not. *)
Theorem only_a_failed_import_escapes_main
    (w : world) (o : Options) (f : string) (fuel : nat) :
  (forall e, (run w o f fuel).1 = Raised e <->
             record o = false /\ spdy o = true /\ w_import w = Raises e)
  /\ ((import_phase w o).2 = None ->
      let '(rb, tb, _) :=
        scopes w o f (variant_of_configuration o) fuel initial in
      run w o f fuel =
      (match rb with Running => Running | _ => Done tt end,
       (import_phase w o).1 ++ tb
         ++ match rb with Raised e => [Ev (report_for e) None] | _ => [] end))
  /\ (forall e n, handler e n = (Done tt, [Ev (report_for e) None], n))
  /\ report_for KeyboardInterrupt = Logging INFO "Shutting down."
  /\ (forall msg, report_for (DnsProxyException msg) = Logging CRITICAL msg)
  /\ (forall msg, report_for (TrafficShaperException msg) = Logging CRITICAL msg)
  /\ (forall e,
        e <> KeyboardInterrupt ->
        (forall msg, e <> DnsProxyException msg) ->
        (forall msg, e <> TrafficShaperException msg) ->
        report_for e = Print_traceback e).
Proof.
  split_and!; try done.
  - intros e. pose proof (import_phase_facts w o) as Hi.
    destruct (import_phase w o).2 as [e0|] eqn:Hstop.
    + rewrite (run_import_fails _ _ _ _ _ Hstop). simpl.
      destruct (import_phase w o) as [t0 stop]. simpl in Hstop. subst stop.
      destruct Hi as (_ & _ & _ & _ & _ & _ & _ & Hi).
      rewrite <- Hi. split; congruence.
    + pose proof (run_observed w o f fuel Hstop) as H.
      destruct (import_phase w o) as [t0 stop]. simpl in Hstop. subst stop.
      destruct Hi as (_ & _ & _ & _ & _ & _ & _ & Hi).
      rewrite <- Hi.
      destruct (startup_phase w o f _) as [ts failed].
      destruct (match failed with
                | Some e => (Raised e, [], initial)
                | None => idle_phase w o fuel initial
                end) as [[r0 ti] n'].
      destruct (unwind w (rev (entered ts)) r0) as [rb tx].
      destruct H as (-> & _). simpl. split; [|done]. by destruct rb.
  - intros Hstop. rewrite run_phases, scopes_phases.
    destruct (import_phase w o) as [t0 stop]. simpl in Hstop. subst stop.
    simpl.
    destruct (startup_phase w o f _) as [ts failed].
    destruct (match failed with
              | Some e => (Raised e, [], initial)
              | None => idle_phase w o fuel initial
              end) as [[r0 ti] n'].
    destruct (unwind w (rev (entered ts)) r0) as [rb tx].
    by rewrite <- !app_assoc.
  - apply handler_reports.
  - intros e H1 H2 H3. destruct e; simpl; try done.
    + by destruct (H2 msg).
    + by destruct (H3 msg).
Qed.

(** A socket error in the replay server's constructor: the traceback is
    printed and [main] returns. *)
Lemma only_a_failed_import_escapes_main_witness :
  report_for (OtherException "socket.error" "Address already in use")
  = Print_traceback (OtherException "socket.error" "Address already in use")
  /\ (run shaper_refused default_options "archive.wpr" 0).1 = Done tt.
Proof.
  destruct (only_a_failed_import_escapes_main
              shaper_refused default_options "archive.wpr" 0)
    as (_ & H2 & _ & _ & _ & _ & H7).
  split.
  - apply H7; intros; discriminate.
  - specialize (H2 eq_refl). simpl in H2. by rewrite H2.
Defined.

(** C10, as stated, fails: with [--spdy], when [replayspdyserver] cannot
    be imported, the [ImportError] is raised before the [try] statement
    and leaves [main]; nothing is reported. *)
Lemma import_error_leaves_main :
  run spdy_missing spdy_options "archive.wpr" 0
  = (Raised (OtherException "ImportError" "No module named replayspdyserver"),
     [Ev Import_replayspdyserver
         (Some (OtherException "ImportError"
                                "No module named replayspdyserver"))])
  /\ reports (run spdy_missing spdy_options "archive.wpr" 0).2 = []
  /\ (run spdy_missing spdy_options "archive.wpr" 0).1 <> Done tt.
Proof. split_and!; [reflexivity | reflexivity | discriminate]. Qed.

(** * Further properties of [main] *)

Lemma naps_app t1 t2 : naps (t1 ++ t2) = (naps t1 + naps t2)%nat.
Proof. unfold naps. by rewrite omap_app, length_app. Qed.

Lemma only_startup_no_nap (l : list event) :
  Forall (fun ev => match ev with Ev c _ => is_startup c = true end) l ->
  naps l = 0%nat.
Proof.
  induction 1 as [|[c x] l Hc _ IH]; [done|].
  unfold naps in *. by destruct c.
Qed.

Lemma only_exits_no_nap (l : list event) :
  Forall (fun ev => exists eng exc x, ev = Ev (Exit eng exc) x) l ->
  naps l = 0%nat.
Proof. induction 1 as [|ev l (eng & exc & x & ->) _ IH]; done. Qed.

Lemma naps_turns k : naps (concat (replicate k check_and_nap)) = k.
Proof.
  induction k as [|k IH]; [done|].
  change (concat (replicate (S k) check_and_nap))
    with (check_and_nap ++ concat (replicate k check_and_nap)).
  by rewrite naps_app, IH.
Qed.

(** A run in which the three engines came up, written out: the idle loop
    ends as [r0], and the three blocks are left from there. *)
Lemma run_with_all_entered w o f fuel :
  TrafficShaper ∈ entered (run w o f fuel).2 ->
  exists t r0 ti n',
    idle_phase w o fuel initial = (r0, ti, n')
    /\ naps t = naps ti
    /\ released t = [] /\ reports t = []
    /\ entered t = [DnsProxyServer; ReplayServer; TrafficShaper]
    /\ idle_failures (run w o f fuel).2
       = match r0 with Raised e => [e] | _ => [] end
    /\ let '(rb, tx) :=
         unwind w [TrafficShaper; ReplayServer; DnsProxyServer] r0 in
       run w o f fuel =
       (match rb with Running => Running | _ => Done tt end,
        t ++ tx
          ++ match rb with Raised e => [Ev (report_for e) None] | _ => [] end).
Proof.
  intros Hin.
  destruct (import_phase w o).2 as [e|] eqn:Hstop.
  { rewrite (run_import_fails _ _ _ _ _ Hstop) in Hin.
    by apply elem_of_nil in Hin. }
  pose proof (run_observed w o f fuel Hstop) as H.
  pose proof (startup_phase_facts w o f) as Hs.
  pose proof (import_phase_facts w o) as Hi.
  pose proof (startup_phase_only_startup w o f (variant_of_configuration o))
    as Honly.
  destruct (import_phase w o) as [t0 stop] eqn:Himp. simpl in Hstop, H, Hi.
  destruct (startup_phase w o f _) as [ts failed]. simpl in Honly.
  destruct Hs as (_ & S2 & S3 & _ & _ & Hfailed).
  destruct Hi as (I1 & I2 & _ & _ & I5 & _).
  destruct failed as [e|].
  { destruct (unwind w (rev (entered ts)) (Raised e)) as [rb tx].
    destruct H as (_ & He & _). rewrite He in Hin.
    destruct Hfailed as (c & _ & Hent). rewrite Hent in Hin.
    destruct c; simpl in Hin; try destruct e0; among Hin. }
  destruct Hfailed as (Hent & _).
  destruct (idle_phase w o fuel initial) as [[r0 ti] n'].
  rewrite Hent in H.
  change (rev [DnsProxyServer; ReplayServer; TrafficShaper])
    with [TrafficShaper; ReplayServer; DnsProxyServer] in H.
  exists (t0 ++ ts ++ ti), r0, ti, n'.
  destruct (unwind w [TrafficShaper; ReplayServer; DnsProxyServer] r0)
    as [rb tx].
  destruct H as (Hr & _ & _ & _ & _ & _ & Hf & Hti & _).
  destruct (idle_only_silent ti Hti) as (T1 & T2 & _ & _ & T5).
  rewrite !released_app, !reports_app, !entered_app.
  rewrite I1, I2, I5, S2, S3, T1, T2, T5, Hent, Hf.
  split_and!; try done; [|rewrite Hr; simpl; by rewrite <- !app_assoc].
  rewrite !naps_app, (only_startup_no_nap ts Honly).
  unfold import_phase in Himp.
  destruct (record o); [|destruct (spdy o)]; by injection Himp as <- _.
Qed.

(** A run that has not ended has released nothing. *)
Lemma run_running_released w o f fuel :
  (run w o f fuel).1 = Running -> released (run w o f fuel).2 = [].
Proof.
  intros Hrun.
  destruct (import_phase w o).2 as [e|] eqn:Hstop.
  { by rewrite (run_import_fails _ _ _ _ _ Hstop) in Hrun. }
  pose proof (run_observed w o f fuel Hstop) as H.
  destruct (startup_phase w o f _) as [ts failed].
  destruct (match failed with
            | Some e => (Raised e, [], initial)
            | None => idle_phase w o fuel initial
            end) as [[r0 ti] n'].
  pose proof (unwind_running w (rev (entered ts)) r0) as Hiff.
  pose proof (unwind_not_left w (rev (entered ts))) as Hnot.
  destruct (unwind w (rev (entered ts)) r0) as [rb tx] eqn:Hu. simpl in *.
  destruct H as (Hr & _ & -> & _).
  rewrite Hr in Hrun. simpl in Hrun.
  assert (rb = Running) as -> by (by destruct rb).
  assert (r0 = Running) as -> by (by apply Hiff).
  rewrite Hnot in Hu. by injection Hu as <-.
Qed.

(** A run in which the startup call [c] failed with [e], written out: the
    blocks entered before [c] are left with [e] in flight. *)
Lemma run_with_failed_startup w o f fuel c e :
  (c, e) ∈ startup_failures (run w o f fuel).2 ->
  exists t,
    released t = [] /\ reports t = [] /\ entered t = entered_before c
    /\ let '(rb, tx) := unwind w (rev (entered_before c)) (Raised e) in
       run w o f fuel =
       (match rb with Running => Running | _ => Done tt end,
        t ++ tx
          ++ match rb with Raised e' => [Ev (report_for e') None] | _ => [] end).
Proof.
  intros Hin.
  destruct (import_phase w o).2 as [e0|] eqn:Hstop.
  { rewrite (run_import_fails _ _ _ _ _ Hstop) in Hin.
    by apply elem_of_nil in Hin. }
  pose proof (run_observed w o f fuel Hstop) as H.
  pose proof (startup_phase_facts w o f) as Hs.
  pose proof (import_phase_facts w o) as Hi.
  destruct (import_phase w o) as [t0 stop]. simpl in Hstop, H, Hi.
  destruct (startup_phase w o f _) as [ts failed].
  destruct Hs as (_ & S2 & S3 & _ & _ & Hfailed).
  destruct Hi as (I1 & I2 & _ & _ & I5 & _).
  destruct failed as [e1|].
  2:{ destruct (idle_phase w o fuel initial) as [[r0 ti] n'].
      destruct (unwind w (rev (entered ts)) r0) as [rb tx].
      destruct H as (_ & _ & _ & _ & Hf & _).
      destruct Hfailed as (_ & Hnone & _).
      rewrite Hf, Hnone in Hin. by apply elem_of_nil in Hin. }
  destruct Hfailed as (c1 & Hfail & Hent).
  assert (c1 = c /\ e1 = e) as [-> ->].
  { destruct (unwind w (rev (entered ts)) (Raised e1)) as [rb tx].
    destruct H as (_ & _ & _ & _ & Hf & _). rewrite Hf, Hfail in Hin.
    by apply list_elem_of_singleton in Hin as [= -> ->]. }
  rewrite Hent in H.
  exists (t0 ++ ts).
  destruct (unwind w (rev (entered_before c)) (Raised e)) as [rb tx].
  destruct H as (Hr & _).
  rewrite !released_app, !reports_app, !entered_app, I1, I2, I5, S2, S3, Hent.
  split_and!; try done. rewrite Hr. simpl. by rewrite <- !app_assoc.
Qed.

(** X1: as long as [main] has not ended, the three engines are up: all of them
    were entered, none has been released, and nothing has failed or been
    reported. *)
Theorem engines_stay_up_while_running
    (w : world) (o : Options) (f : string) (fuel : nat) :
  (run w o f fuel).1 = Running ->
  entered (run w o f fuel).2 = [DnsProxyServer; ReplayServer; TrafficShaper]
  /\ released (run w o f fuel).2 = []
  /\ reports (run w o f fuel).2 = []
  /\ startup_failures (run w o f fuel).2 = []
  /\ idle_failures (run w o f fuel).2 = [].
Proof.
  intros Hrun.
  destruct (import_phase w o).2 as [e|] eqn:Hstop.
  { by rewrite (run_import_fails _ _ _ _ _ Hstop) in Hrun. }
  pose proof (run_observed w o f fuel Hstop) as H.
  pose proof (startup_phase_facts w o f) as Hs.
  destruct (startup_phase w o f _) as [ts failed].
  destruct Hs as (_ & _ & _ & _ & _ & Hfailed).
  destruct (match failed with
            | Some e => (Raised e, [], initial)
            | None => idle_phase w o fuel initial
            end) as [[r0 ti] n'] eqn:Hidle.
  pose proof (unwind_running w (rev (entered ts)) r0) as Hiff.
  pose proof (unwind_not_left w (rev (entered ts))) as Hnot.
  destruct (unwind w (rev (entered ts)) r0) as [rb tx] eqn:Hu. simpl in *.
  destruct H as (Hr & He & Hx & _ & Hf & Hrep & Hif & _).
  rewrite Hr in Hrun. simpl in Hrun.
  assert (rb = Running) as -> by (by destruct rb).
  assert (r0 = Running) as -> by (by apply Hiff).
  rewrite Hnot in Hu. injection Hu as <-.
  destruct failed as [e|]; [done|].
  destruct Hfailed as (Hent & Hnone & _).
  by rewrite He, Hx, Hf, Hrep, Hif, Hent, Hnone.
Qed.

(** Without a time limit the steady run is still going after three naps,
    with the three engines up. *)
Lemma engines_stay_up_while_running_witness :
  entered (run steady default_options "archive.wpr" 3).2
    = [DnsProxyServer; ReplayServer; TrafficShaper]
  /\ released (run steady default_options "archive.wpr" 3).2 = [].
Proof.
  destruct (engines_stay_up_while_running
              steady default_options "archive.wpr" 3 eq_refl)
    as (H1 & H2 & _).
  split; [exact H1 | exact H2].
Defined.

(** X2: in every run, ended or not, an engine is released only if it was
    entered, and at most once: the engines entered are the first ones of
    DNS proxy, replay server, traffic shaper, and the engines released are
    either none or all the entered ones, innermost first. *)
Theorem released_only_what_was_entered
    (w : world) (o : Options) (f : string) (fuel : nat) :
  entered (run w o f fuel).2
    `prefix_of` [DnsProxyServer; ReplayServer; TrafficShaper]
  /\ (released (run w o f fuel).2 = []
      \/ released (run w o f fuel).2 = rev (entered (run w o f fuel).2))
  /\ NoDup (released (run w o f fuel).2)
  /\ released (run w o f fuel).2 ⊆ entered (run w o f fuel).2.
Proof.
  assert (entered (run w o f fuel).2
            `prefix_of` [DnsProxyServer; ReplayServer; TrafficShaper]
          /\ (released (run w o f fuel).2 = []
              \/ released (run w o f fuel).2
                 = rev (entered (run w o f fuel).2))) as [Hpre Hrel].
  { destruct (import_phase w o).2 as [e|] eqn:Hstop.
    { rewrite (run_import_fails _ _ _ _ _ Hstop). simpl.
      split; [apply prefix_nil | by left]. }
    split.
    - pose proof (run_observed w o f fuel Hstop) as H.
      pose proof (startup_phase_facts w o f) as Hs.
      destruct (startup_phase w o f _) as [ts failed].
      destruct Hs as (_ & _ & _ & _ & _ & Hfailed).
      destruct (match failed with
                | Some e => (Raised e, [], initial)
                | None => idle_phase w o fuel initial
                end) as [[r0 ti] n'].
      destruct (unwind w (rev (entered ts)) r0) as [rb tx].
      destruct H as (_ & -> & _).
      destruct failed as [e|]; [|by destruct Hfailed as (-> & _)].
      destruct Hfailed as (c & _ & ->).
      destruct c; simpl; try destruct e0;
        repeat apply prefix_cons; apply prefix_nil.
    - destruct (run w o f fuel).1 as [[]|e|] eqn:Hr.
      + right. apply run_released. by rewrite Hr.
      + right. apply run_released. by rewrite Hr.
      + left. by apply run_running_released. }
  split_and!; [done|done| |].
  - assert (NoDup (entered (run w o f fuel).2)) as Hnd.
    { destruct Hpre as [k Hk].
      assert (NoDup [DnsProxyServer; ReplayServer; TrafficShaper]) as Hall.
      { repeat (apply NoDup_cons_2; [intros Hx; among Hx|]).
        apply NoDup_nil_2. }
      rewrite Hk in Hall. by apply NoDup_app in Hall as (? & _). }
    destruct Hrel as [-> | ->]; [apply NoDup_nil_2|].
    by apply NoDup_ListNoDup, List.NoDup_rev, NoDup_ListNoDup.
  - destruct Hrel as [-> | ->]; [set_solver|].
    intros x Hx. apply list_elem_of_In. apply list_elem_of_In in Hx.
    by apply List.in_rev.
Qed.

(** X3: when the loop ends by itself and no [__exit__] misbehaves, [main] tears
    down in silence: each [__exit__] is called with [None], innermost
    first, and nothing is logged or printed. *)
Theorem limit_expiry_is_silent
    (w : world) (o : Options) (f : string) (fuel : nat) :
  TrafficShaper ∈ entered (run w o f fuel).2 ->
  (run w o f fuel).1 <> Running ->
  idle_failures (run w o f fuel).2 = [] ->
  transparent w ->
  (run w o f fuel).1 = Done tt
  /\ reports (run w o f fuel).2 = []
  /\ exists t,
       (run w o f fuel).2 =
       t ++ [Ev (Exit TrafficShaper None) None;
             Ev (Exit ReplayServer None) None;
             Ev (Exit DnsProxyServer None) None]
       /\ released t = [] /\ reports t = [].
Proof.
  intros Hin Hend Hquiet Hw.
  destruct (run_with_all_entered w o f fuel Hin)
    as (t & r0 & ti & n' & _ & _ & Hrel & Hrep & _ & Hfail & Hrun).
  rewrite (unwind_transparent w _ _ Hw) in Hrun.
  rewrite Hfail in Hquiet.
  destruct r0 as [[]|e|]; [|done|by rewrite Hrun in Hend].
  rewrite Hrun. simpl. rewrite reports_app, Hrep.
  split_and!; [done|done|]. exists t. by rewrite ?app_nil_r.
Qed.

(** The steady run with a limit of two seconds. *)
Lemma limit_expiry_is_silent_witness :
  reports (run steady (limited 2) "archive.wpr" 5).2 = [].
Proof.
  destruct (limit_expiry_is_silent steady (limited 2) "archive.wpr" 5)
    as (_ & H & _).
  - vm_compute. do 2 right. left.
  - discriminate.
  - reflexivity.
  - intros eng exc. reflexivity.
  - exact H.
Defined.

(** X4: a release that fails does not stop the releases that remain, and is
    reported like any failure: when the [__exit__] of the traffic shaper
    raises as the loop has ended, the replay server and the DNS proxy are
    released with that exception in flight, and it is what [main]
    reports. *)
Theorem failed_release_is_reported
    (w : world) (o : Options) (f : string) (fuel : nat) (e' : exn) :
  TrafficShaper ∈ entered (run w o f fuel).2 ->
  (run w o f fuel).1 <> Running ->
  idle_failures (run w o f fuel).2 = [] ->
  w_exit w TrafficShaper None = Raises e' ->
  w_exit w ReplayServer (Some e') = Returns false ->
  w_exit w DnsProxyServer (Some e') = Returns false ->
  (run w o f fuel).1 = Done tt
  /\ reports (run w o f fuel).2 = [report_for e']
  /\ exists t,
       (run w o f fuel).2 =
       t ++ [Ev (Exit TrafficShaper None) (Some e');
             Ev (Exit ReplayServer (Some e')) None;
             Ev (Exit DnsProxyServer (Some e')) None;
             Ev (report_for e') None]
       /\ released t = [] /\ reports t = [].
Proof.
  intros Hin Hend Hquiet HT HS HD.
  destruct (run_with_all_entered w o f fuel Hin)
    as (t & r0 & ti & n' & _ & _ & Hrel & Hrep & _ & Hfail & Hrun).
  rewrite Hfail in Hquiet.
  destruct r0 as [[]|e|]; [|done|].
  2:{ rewrite unwind_not_left in Hrun. by rewrite Hrun in Hend. }
  simpl in Hrun. rewrite HT in Hrun. simpl in Hrun.
  rewrite HS in Hrun. simpl in Hrun. rewrite HD in Hrun. simpl in Hrun.
  rewrite Hrun. simpl. rewrite reports_app, Hrep.
  split_and!; [done|by destruct e'|]. by exists t.
Qed.

(** The shaper cannot be taken down after a run of two seconds. *)
Lemma failed_release_is_reported_witness :
  reports (run shaper_stuck (limited 2) "archive.wpr" 5).2
  = [Logging CRITICAL "Unable to stop shaping"].
Proof.
  destruct (failed_release_is_reported
              shaper_stuck (limited 2) "archive.wpr" 5
              (TrafficShaperException "Unable to stop shaping"))
    as (_ & H & _).
  - vm_compute. do 2 right. left.
  - discriminate.
  - reflexivity.
  - reflexivity.
  - reflexivity.
  - reflexivity.
  - exact H.
Defined.

(** X5: an [__exit__] that returns a true value silences the failure: when the
    traffic shaper fails to start and the [__exit__] of the replay server
    swallows the exception, the DNS proxy is released as after a normal
    end, and [main] returns without any report. *)
Theorem swallowed_failure_is_not_reported
    (w : world) (o : Options) (f : string) (fuel : nat)
    (c : call) (e : exn) (b : bool) :
  (c, e) ∈ startup_failures (run w o f fuel).2 ->
  entered_before c = [DnsProxyServer; ReplayServer] ->
  w_exit w ReplayServer (Some e) = Returns true ->
  w_exit w DnsProxyServer None = Returns b ->
  (run w o f fuel).1 = Done tt
  /\ reports (run w o f fuel).2 = []
  /\ released (run w o f fuel).2 = [ReplayServer; DnsProxyServer]
  /\ exists t,
       (run w o f fuel).2 =
       t ++ [Ev (Exit ReplayServer (Some e)) None;
             Ev (Exit DnsProxyServer None) None].
Proof.
  intros Hin Hent HS HD.
  destruct (run_with_failed_startup w o f fuel c e Hin)
    as (t & Hrel & Hrep & _ & Hrun).
  rewrite Hent in Hrun. simpl in Hrun.
  rewrite HS in Hrun. simpl in Hrun. rewrite HD in Hrun. simpl in Hrun.
  rewrite Hrun. simpl. rewrite reports_app, released_app, Hrep, Hrel.
  split_and!; try done. exists t. by rewrite ?app_nil_r.
Qed.

(** The shaper cannot be built, the replay server swallows the failure. *)
Lemma swallowed_failure_is_not_reported_witness :
  reports (run server_swallows default_options "archive.wpr" 0).2 = []
  /\ (run server_swallows default_options "archive.wpr" 0).1 = Done tt.
Proof.
  destruct (swallowed_failure_is_not_reported
              server_swallows default_options "archive.wpr" 0
              (New_TrafficShaper true "0" "0" "0" "0")
              (TrafficShaperException "Unable to shape traffic") false)
    as (H1 & H2 & _).
  - vm_compute. left.
  - reflexivity.
  - reflexivity.
  - reflexivity.
  - split; [exact H2 | exact H1].
Defined.

(** X6: a startup failure of a class that no [except] clause names, a
    [SystemExit] included, is caught by the bare [except:]: [main] prints
    the traceback, logs nothing, and returns; an exit code asked for by
    [sys.exit] is lost. *)
Theorem unnamed_failure_prints_traceback
    (w : world) (o : Options) (f : string) (fuel : nat) (c : call) (e : exn) :
  (c, e) ∈ startup_failures (run w o f fuel).2 ->
  e <> KeyboardInterrupt ->
  (forall msg, e <> DnsProxyException msg) ->
  (forall msg, e <> TrafficShaperException msg) ->
  entered_before c = [] \/ transparent w ->
  (run w o f fuel).1 = Done tt
  /\ exit_status (run w o f fuel).1 = Some 0
  /\ reports (run w o f fuel).2 = [Print_traceback e]
  /\ last (run w o f fuel).2 = Some (Ev (Print_traceback e) None).
Proof.
  intros Hin H1 H2 H3 Hpass.
  destruct (run_report_of_failure w o f fuel c e Hin Hpass) as (Hr & Hrep & Hl).
  rewrite Hr, Hrep, Hl.
  destruct e; try done; [by destruct (H2 msg) | by destruct (H3 msg)].
Qed.

(** The constructor of the replay server calls [sys.exit(3)]: the status
    [main] leaves is 0. *)
Lemma unnamed_failure_prints_traceback_witness :
  exit_status (run server_quits default_options "archive.wpr" 0).1 = Some 0
  /\ reports (run server_quits default_options "archive.wpr" 0).2
     = [Print_traceback (SystemExit 3)].
Proof.
  destruct (unnamed_failure_prints_traceback
              server_quits default_options "archive.wpr" 0
              (New_ReplayServer ReplayHttpProxyServer "archive.wpr" true
                 (real_dns_lookup one_host))
              (SystemExit 3))
    as (_ & H2 & H3 & _).
  - vm_compute. left.
  - discriminate.
  - discriminate.
  - discriminate.
  - right. intros eng exc. reflexivity.
  - split; [exact H2 | exact H3].
Defined.

(** ** The loop comes to an end *)

Lemma inject_Z_succ (d : nat) :
  (inject_Z (Z.of_nat (S d)) == inject_Z (Z.of_nat d) + 1)%Q.
Proof. by rewrite Nat2Z.inj_succ, <- Z.add_1_r, inject_Z_plus. Qed.

(** The first look that finds a test failing, when one does. *)
Lemma first_failing (test : nat -> bool) (d : nat) :
  test d = false ->
  exists k, (k <= d)%nat
            /\ (forall j, (j < k)%nat -> test j = true)
            /\ test k = false.
Proof.
  revert test. induction d as [|d IH]; intros test Hd.
  - exists 0%nat. split_and!; [done|intros j Hj; lia|done].
  - destruct (test 0%nat) eqn:H0.
    + destruct (IH (fun k => test (S k)) Hd) as (k & Hk & Hbelow & Hreach).
      exists (S k). split_and!; [lia| |done].
      intros [|j] Hj; [done|]. apply Hbelow. lia.
    + exists 0%nat. split_and!; [lia|intros j Hj; lia|done].
Qed.

(** A clock that gains a second or more from one reading to the next. *)
Lemma clock_gains (t : nat -> Q) (d : nat) :
  (forall k, t k + 1 <= t (S k))%Q ->
  (t 0%nat + inject_Z (Z.of_nat d) <= t d)%Q.
Proof.
  intros Hgain. induction d as [|d IH].
  - change (inject_Z (Z.of_nat 0)) with 0%Q. lra.
  - rewrite inject_Z_succ. pose proof (Hgain d). lra.
Qed.

Section Bounded.
Variable w : world.
Variable o : Options.

(** With a limit, a clock that gains at least a second from one look to
    the next and naps that return, the loop ends after a bounded number
    of naps. *)
Lemma idle_ends_within limit start n (t : nat -> Q) d fuel :
  time_limit o = Some limit -> 0 < limit <= 2 ^ 53 ->
  (forall k, w_clock w (clock_reads n + k) = Returns (t k)) ->
  (forall k, w_sleep w (sleeps n + k) = Returns tt) ->
  (forall k, t k + 1 <= t (S k))%Q ->
  (inject_Z limit <= t 0%nat - start + inject_Z (Z.of_nat d))%Q ->
  (d < fuel)%nat ->
  exists k, (k <= d)%nat
    /\ idle w o fuel start n =
       (Done tt, concat (replicate k check_and_nap) ++ [Ev Time_time None],
        mkCounters (clock_reads n + k + 1) (sleeps n + k)).
Proof.
  intros Hl Hlim Hclock Hsleep Hgain Hd Hfuel.
  destruct (first_failing
              (fun j => float_lt_int (float_sub (t j) start) limit) d)
    as (k & Hk & Hbelow & Hreach).
  { apply binary64_reaches; [lia|].
    pose proof (clock_gains t d Hgain). lra. }
  exists k. split; [done|].
  apply (idle_until_limit w o limit); try done.
  - lia.
  - intros j Hj. split; [|done]. exists (t j). split; [done|]. by apply Hbelow.
  - by exists (t k).
  - lia.
Qed.

End Bounded.

(** X7: a run that starts up and has a positive time limit comes to an
    end. If the six startup calls return, the clock does not go back
    between [start = time.time()] and the first look, gains at least a
    second from one look to the next, and [time.sleep] returns, then
    [main] has returned after no more naps than the limit has seconds,
    and has released the three engines. The limit is a double itself. *)
Theorem main_returns_by_the_limit
    (w : world) (o : Options) (f : string) (fuel : nat)
    (limit : Z) (t : nat -> Q) :
  starts_up w o f ->
  time_limit o = Some limit -> 0 < limit <= 2 ^ 53 ->
  (forall k, w_clock w k = Returns (t k)) ->
  (t 0%nat <= t 1%nat)%Q ->
  (forall k, t (S k) + 1 <= t (S (S k)))%Q ->
  (forall k, w_sleep w k = Returns tt) ->
  (Z.to_nat limit < fuel)%nat ->
  (run w o f fuel).1 = Done tt
  /\ (naps (run w o f fuel).2 <= Z.to_nat limit)%nat
  /\ idle_failures (run w o f fuel).2 = []
  /\ released (run w o f fuel).2 = [TrafficShaper; ReplayServer; DnsProxyServer].
Proof.
  intros Hup Hl Hpos Hclock Hfirst Hgain Hsleep Hfuel.
  assert (TrafficShaper ∈ entered (run w o f fuel).2) as Hin.
  { destruct (run_starts_up w o f fuel Hup) as (-> & _).
    do 2 right. left. }
  destruct (run_with_all_entered w o f fuel Hin)
    as (tp & r0 & ti & n' & Hidle & Hnaps & _ & _ & _ & Hfail & Hrun).
  assert (exists k, (k <= Z.to_nat limit)%nat
            /\ r0 = Done tt
            /\ ti = Ev Time_time None
                      :: concat (replicate k check_and_nap)
                      ++ [Ev Time_time None]) as (k & Hk & -> & ->).
  { unfold idle_phase, bind, time_time in Hidle. simpl in Hidle.
    rewrite Hclock in Hidle. simpl in Hidle.
    assert (inject_Z limit
              <= t 1%nat - t 0%nat
                 + inject_Z (Z.of_nat (Z.to_nat limit)))%Q as Hd.
    { replace (Z.of_nat (Z.to_nat limit)) with limit by lia. lra. }
    destruct (idle_ends_within w o limit (t 0%nat) (mkCounters 1 0)
                (fun k => t (S k)) (Z.to_nat limit) fuel
                Hl Hpos (fun k => Hclock (S k)) (fun k => Hsleep k)
                Hgain Hd Hfuel)
      as (k & Hk & Hk').
    rewrite Hk' in Hidle. injection Hidle as <- <- _.
    exists k. split; [lia|done]. }
  pose proof (unwind_running w [TrafficShaper; ReplayServer; DnsProxyServer]
                (Done tt)) as Hiff.
  pose proof (unwind_released w [TrafficShaper; ReplayServer; DnsProxyServer]
                (Done tt) ltac:(done)) as Hrel.
  pose proof (unwind_only_exits w
                [TrafficShaper; ReplayServer; DnsProxyServer] (Done tt)) as Hx.
  destruct (unwind w [TrafficShaper; ReplayServer; DnsProxyServer] (Done tt))
    as [rb tx]. simpl in Hiff, Hrel, Hx.
  assert (rb <> Running) as Hend.
  { intros ->. by destruct Hiff as [Hiff _]; specialize (Hiff eq_refl). }
  split_and!.
  - rewrite Hrun. by destruct rb.
  - rewrite Hrun. simpl. rewrite !naps_app, Hnaps, (only_exits_no_nap tx Hx).
    change (naps (Ev Time_time None
                    :: concat (replicate k check_and_nap)
                    ++ [Ev Time_time None]))
      with (naps (concat (replicate k check_and_nap) ++ [Ev Time_time None])).
    rewrite naps_app, naps_turns.
    destruct rb as [[]|[]|]; simpl; unfold naps; simpl; lia.
  - by rewrite Hfail.
  - rewrite run_released, (proj1 (proj2 (run_all_entered w o f fuel Hin)));
      [done|].
    rewrite Hrun. by destruct rb.
Qed.

(** The clock moves with the naps alone: with a limit of two seconds
    [main] has returned after two naps. *)
Lemma main_returns_by_the_limit_witness :
  (run napping (limited 2) "archive.wpr" 3).1 = Done tt
  /\ (naps (run napping (limited 2) "archive.wpr" 3).2 <= 2)%nat
  /\ naps (run napping (limited 2) "archive.wpr" 3).2 = 2%nat.
Proof.
  destruct (main_returns_by_the_limit napping (limited 2) "archive.wpr" 3 2
              (fun k => inject_Z (Z.of_nat (k - 1))))
    as (H1 & H2 & _).
  - unfold starts_up. split_and!; try reflexivity. by eexists.
  - reflexivity.
  - lia.
  - reflexivity.
  - apply Qle_refl.
  - intros k. replace (S (S k) - 1)%nat with (S (S k - 1)) by lia.
    rewrite inject_Z_succ. apply Qle_refl.
  - reflexivity.
  - simpl. lia.
  - split_and!; [exact H1 | exact H2 | reflexivity].
Defined.

(** X8: a negative time limit ends the loop at its first look at the clock,
    before any nap, as long as the clock has not gone back behind
    [start]. *)
Theorem negative_limit_ends_at_once
    (w : world) (o : Options) (limit : Z) (start now : Q)
    (n : counters) (fuel : nat) :
  time_limit o = Some limit -> limit < 0 ->
  w_clock w (clock_reads n) = Returns now ->
  (start <= now)%Q ->
  (idle w o (S fuel) start n).1 = (Done tt, [Ev Time_time None])
  /\ naps (idle w o (S fuel) start n).1.2 = 0%nat.
Proof.
  intros Hl Hneg Hnow Hle.
  assert (elapsed_reached w start limit (clock_reads n + 0)) as Hreach.
  { exists now. rewrite Nat.add_0_r. split; [done|].
    assert (inject_Z limit < inject_Z 0)%Q as H0 by (by rewrite <- Zlt_Qlt).
    change (inject_Z 0) with 0%Q in H0.
    pose proof (binary64_nonneg (now - start) ltac:(lra)) as Hsign.
    unfold float_sub. destruct (binary64 (now - start)) as [r|neg]; simpl.
    - apply Qltb_ge. lra.
    - done. }
  rewrite (idle_until_limit w o limit start 0 (S fuel) n Hl ltac:(lia)
             ltac:(intros j Hj; lia) Hreach ltac:(lia)).
  done.
Qed.

(** With [--time_limit=-1] and the steady clock. *)
Lemma negative_limit_ends_at_once_witness :
  (idle steady (limited (-1)) 1 0 (mkCounters 1 0)).1
  = (Done tt, [Ev Time_time None]).
Proof.
  destruct (negative_limit_ends_at_once steady (limited (-1)) (-1) 0
              (inject_Z 1) (mkCounters 1 0) 0) as (H & _).
  - reflexivity.
  - lia.
  - reflexivity.
  - discriminate.
  - exact H.
Defined.


(** * Further properties of the option parser *)

(** ** Strings *)
Lemma substring_all s : String.substring 0 (String.length s) s = s.
Proof. induction s as [|c s IH]; [done|]. simpl. by rewrite IH. Qed.

Lemma string_prefix_cons a s1 b s2 :
  String.prefix (String a s1) (String b s2)
  = if ascii_dec a b then String.prefix s1 s2 else false.
Proof. reflexivity. Qed.

Lemma string_prefix_empty s : String.prefix "" s = true.
Proof. by destruct s. Qed.

Lemma string_index_cons s1 b s2 :
  String.index 0 s1 (String b s2)
  = if String.prefix s1 (String b s2) then Some 0%nat
    else match String.index 0 s1 s2 with
         | Some n => Some (S n)
         | None => None
         end.
Proof. reflexivity. Qed.

Lemma string_length_app s t :
  String.length (s +:+ t) = (String.length s + String.length t)%nat.
Proof. induction s as [|c s IH]; [done|]. simpl. by rewrite IH. Qed.

(** Where the first [=] of [s=v] is, when [s] has none. *)
Lemma string_index_joined s v :
  String.index 0 "=" s = None ->
  String.index 0 "=" (s +:+ "=" +:+ v) = Some (String.length s).
Proof.
  induction s as [|c s IH]; intros Hs.
  - change ("" +:+ "=" +:+ v) with (String "=" v).
    rewrite string_index_cons, string_prefix_cons.
    destruct (ascii_dec "=" "="); [|done]. by rewrite string_prefix_empty.
  - change (String c s +:+ "=" +:+ v) with (String c (s +:+ "=" +:+ v)).
    rewrite string_index_cons, string_prefix_cons in *.
    destruct (ascii_dec "=" c).
    + by rewrite string_prefix_empty in Hs.
    + destruct (String.index 0 "=" s); [done|]. by rewrite IH.
Qed.

Lemma string_substring_head s t :
  String.substring 0 (String.length s) (s +:+ t) = s.
Proof. induction s as [|c s IH]; [by destruct t|]. simpl. by rewrite IH. Qed.

Lemma string_substring_tail s c v :
  String.substring (S (String.length s))
    (String.length (s +:+ String c v) - S (String.length s))
    (s +:+ String c v) = v.
Proof.
  induction s as [|c' s IH].
  - simpl. rewrite Nat.sub_0_r. apply substring_all.
  - simpl in *. apply IH.
Qed.

(** ** The table, option by option *)

(** Case analysis on [H : d ∈ all_options]. *)
Ltac each_option H :=
  unfold all_options, parser_options, network_group, harness_group in H;
  simpl in H;
  repeat (apply elem_of_cons in H as [->|H]);
  try (by apply elem_of_nil in H).

Lemma table_long_facts d :
  d ∈ all_options ->
  bool_decide (opt_long d = "--") = false
  /\ String.prefix "--" (opt_long d) = true
  /\ String.index 0 "=" (opt_long d) = None
  /\ match_long_opt (opt_long d) = Go d.
Proof. intros Hd. each_option Hd; by vm_compute. Qed.

Lemma table_joined_facts d v :
  d ∈ all_options ->
  bool_decide (opt_long d +:+ "=" +:+ v = "--") = false
  /\ String.prefix "--" (opt_long d +:+ "=" +:+ v) = true.
Proof.
  intros Hd. each_option Hd; cbv [String.append opt_long help_option].
  all: split; [apply bool_decide_eq_false; discriminate | reflexivity].
Qed.

Lemma table_kinds d k :
  d ∈ all_options -> dest_of d = Some k ->
  match opt_action d, opt_type d with
  | store, Some type_int => forall z, attribute_ok k (VInt z) = true
  | store, Some _ => forall s, attribute_ok k (VStr s) = true
  | store_true, None | store_false, None =>
      forall b, attribute_ok k (VBool b) = true
  | _, _ => False
  end.
Proof.
  intros Hd Hk.
  unfold all_options, parser_options, network_group, harness_group in Hd.
  simpl in Hd.
  repeat (apply elem_of_cons in Hd as [->|Hd]);
    try (by apply elem_of_nil in Hd).
  all: vm_compute in Hk; try discriminate Hk.
  all: injection Hk as <-; cbn [opt_action opt_type]; intros x.
  all: vm_compute; reflexivity.
Qed.


(** The short option strings of the table: a dash and one letter, each
    naming its option. *)
Lemma table_short_facts d :
  d ∈ all_options ->
  bool_decide (opt_short d = "--") = false
  /\ String.prefix "--" (opt_short d) = false
  /\ (String.prefix "-" (opt_short d)
      && (1 <? String.length (opt_short d))%nat) = true
  /\ match_short_opt (opt_short d) = Some d
  /\ exists ch, opt_short d = String "-" (String ch "").
Proof.
  intros Hd. each_option Hd.
  all: split_and!; [by vm_compute..|by eexists].
Qed.

(** ** Values that [main] can read *)

Lemma well_formed_insert (values : gmap string pyval) k v :
  well_formed values -> attribute_ok k v = true ->
  well_formed (<[k := v]> values).
Proof.
  intros Hw Hok k' Hk'. destruct (decide (k = k')) as [->|Hne].
  - exists v. by rewrite lookup_insert_eq.
  - rewrite lookup_insert_ne by done. by apply Hw.
Qed.

Lemma default_well_formed ios : well_formed (get_default_values ios).
Proof.
  intros k Hk. unfold attributes in Hk.
  repeat (apply elem_of_cons in Hk as [->|Hk]);
    try (by apply elem_of_nil in Hk); eexists; split; by vm_compute.
Qed.

(** Membership in a list written out. *)
Ltac in_list :=
  repeat first [apply list_elem_of_here | apply list_elem_of_further].

Lemma attribute_bool (values : gmap string pyval) k :
  well_formed values -> k ∈ attributes ->
  attribute_ok k VNone = false -> attribute_ok k (VStr "") = false ->
  exists b, values !! k = Some (VBool b).
Proof.
  intros Hw Hk H1 H2. destruct (Hw k Hk) as (v & Hv & Hok).
  unfold attribute_ok in *.
  repeat match type of Hok with context [bool_decide ?P] => destruct (bool_decide P) end;
    destruct v; try discriminate; eauto.
Qed.

Lemma attribute_str (values : gmap string pyval) k :
  well_formed values -> k ∈ attributes ->
  attribute_ok k VNone = false -> attribute_ok k (VBool true) = false ->
  exists s, values !! k = Some (VStr s).
Proof.
  intros Hw Hk H1 H2. destruct (Hw k Hk) as (v & Hv & Hok).
  unfold attribute_ok in *.
  repeat match type of Hok with context [bool_decide ?P] => destruct (bool_decide P) end;
    destruct v; try discriminate; eauto.
Qed.

Lemma attribute_opt_str (values : gmap string pyval) k :
  well_formed values -> k ∈ attributes ->
  attribute_ok k (VInt 0) = false -> attribute_ok k (VBool true) = false ->
  is_Some (as_opt_str (values !! k)).
Proof.
  intros Hw Hk H1 H2. destruct (Hw k Hk) as (v & Hv & Hok). rewrite Hv.
  unfold attribute_ok in *.
  repeat match type of Hok with context [bool_decide ?P] => destruct (bool_decide P) end;
    destruct v; try discriminate; by eexists.
Qed.

Lemma attribute_opt_int (values : gmap string pyval) k :
  well_formed values -> k ∈ attributes ->
  attribute_ok k (VStr "") = false -> attribute_ok k (VBool true) = false ->
  is_Some (as_opt_int (values !! k)).
Proof.
  intros Hw Hk H1 H2. destruct (Hw k Hk) as (v & Hv & Hok). rewrite Hv.
  unfold attribute_ok in *.
  repeat match type of Hok with context [bool_decide ?P] => destruct (bool_decide P) end;
    destruct v; try discriminate; by eexists.
Qed.

Lemma well_formed_options (values : gmap string pyval) :
  well_formed values -> is_Some (options_of values).
Proof.
  intros Hw. unfold options_of.
  destruct (attribute_bool values "spdy" Hw) as [b1 ->]; [in_list|by vm_compute..|].
  destruct (attribute_bool values "record" Hw) as [b2 ->]; [in_list|by vm_compute..|].
  destruct (attribute_str values "log_level" Hw) as [s3 ->]; [in_list|by vm_compute..|].
  destruct (attribute_opt_str values "log_file" Hw) as [s4 ->]; [in_list|by vm_compute..|].
  destruct (attribute_opt_int values "time_limit" Hw) as [s5 ->]; [in_list|by vm_compute..|].
  destruct (attribute_str values "up" Hw) as [s6 ->]; [in_list|by vm_compute..|].
  destruct (attribute_str values "down" Hw) as [s7 ->]; [in_list|by vm_compute..|].
  destruct (attribute_str values "delay_ms" Hw) as [s8 ->]; [in_list|by vm_compute..|].
  destruct (attribute_str values "packet_loss_rate" Hw) as [s9 ->]; [in_list|by vm_compute..|].
  destruct (attribute_bool values "deterministic_script" Hw) as [b10 ->]; [in_list|by vm_compute..|].
  destruct (attribute_bool values "dns_private_passthrough" Hw) as [b11 ->]; [in_list|by vm_compute..|].
  destruct (attribute_bool values "dns_forwarding" Hw) as [b12 ->]; [in_list|by vm_compute..|].
  by eexists.
Qed.

Section Parsing.
Variable ios : string -> option Z.

Lemma process_well_formed d opt value (values values' : gmap string pyval) :
  d ∈ all_options ->
  takes_value d = (if value is Some _ then true else false) ->
  well_formed values ->
  process ios d opt value values = Go values' ->
  well_formed values'.
Proof.
  intros Hd Htakes Hw Hgo.
  unfold process, check_value, take_action, takes_value in *.
  destruct (dest_of d) as [k|] eqn:Hk.
  - pose proof (table_kinds d k Hd Hk) as Hkind.
    destruct (opt_action d), (opt_type d) as [[| |choices]|], value as [v|];
      try done; simpl in Hgo.
    all: repeat match type of Hgo with
         | context [VInt <$> ?x] => destruct x; simpl in Hgo
         | context [if ?b then _ else _] => destruct b
         end; try done.
    all: injection Hgo as <-; by apply well_formed_insert.
  - destruct (opt_action d), value as [v|]; simpl in Hgo;
      repeat match type of Hgo with
      | context [match ?x with Some _ => _ | None => _ end] =>
          destruct x; simpl in Hgo
      | context [if ?b then _ else _] => destruct b
      end; try done; by injection Hgo as <-.
Qed.

Lemma match_long_opt_in opt d :
  match_long_opt opt = Go d -> d ∈ all_options.
Proof.
  unfold match_long_opt.
  destruct (filter (fun d => opt_long d = opt) all_options) as [|d1 l1] eqn:E1.
  - destruct (filter (fun d => String.prefix opt (opt_long d) = true)
                all_options) as [|d2 [|d3 l2]] eqn:E2; try done.
    intros [= <-].
    assert (d2 ∈ filter (fun d => String.prefix opt (opt_long d) = true)
                   all_options) as Hin by (rewrite E2; left).
    by apply list_elem_of_filter in Hin as [_ ?].
  - intros [= <-].
    assert (d1 ∈ filter (fun d => opt_long d = opt) all_options) as Hin
      by (rewrite E1; left).
    by apply list_elem_of_filter in Hin as [_ ?].
Qed.

Lemma match_short_opt_in opt d :
  match_short_opt opt = Some d -> d ∈ all_options.
Proof.
  unfold match_short_opt. intros Hin%head_Some_elem_of.
  by apply list_elem_of_filter in Hin as [_ ?].
Qed.

Lemma process_long_opt_well_formed arg next (values values' : gmap string pyval) used :
  well_formed values ->
  process_long_opt ios arg next values = Go (values', used) ->
  well_formed values'.
Proof.
  intros Hw. unfold process_long_opt.
  destruct (match String.index 0 "=" arg with
            | Some i => _ | None => _ end) as [opt explicit].
  destruct (match_long_opt opt) as [d| |] eqn:Hd; try done.
  apply match_long_opt_in in Hd. cbv zeta.
  destruct (takes_value d) eqn:Ht.
  - destruct explicit as [v|]; [|destruct next as [v|]; [|done]].
    all: destruct (process ios d (opt_long d) (Some v) values)
           as [v'| |] eqn:Hp;
      try done; intros [= <- _];
      by apply (process_well_formed d (opt_long d) (Some v) values).
  - destruct explicit as [v|]; [done|].
    destruct (process ios d (opt_long d) None values) as [v'| |] eqn:Hp;
      try done.
    intros [= <- _]. by apply (process_well_formed d (opt_long d) None values).
Qed.

Lemma process_short_opts_well_formed letters next
    (values values' : gmap string pyval) used :
  well_formed values ->
  process_short_opts ios letters next values = Go (values', used) ->
  well_formed values'.
Proof.
  revert values. induction letters as [|ch rest IH]; intros values Hw.
  - by intros [= <- _].
  - cbn [process_short_opts].
    destruct (match_short_opt _) as [d|] eqn:Hd; [|done].
    apply match_short_opt_in in Hd.
    destruct (takes_value d) eqn:Ht.
    + destruct rest as [|c' rest'].
      * destruct next as [v|]; [|done].
        match goal with |- context [process ios d ?opt (Some v) values] =>
          destruct (process ios d opt (Some v) values) as [v'| |] eqn:Hp;
            try done; intros [= <- _];
            by apply (process_well_formed d opt (Some v) values)
        end.
      * match goal with |- context [process ios d ?opt (Some ?v) values] =>
          destruct (process ios d opt (Some v) values) as [v'| |] eqn:Hp;
            try done; intros [= <- _];
            by apply (process_well_formed d opt (Some v) values)
        end.
    + match goal with |- context [process ios d ?opt None values] =>
        destruct (process ios d opt None values) as [v'| |] eqn:Hp; try done;
          apply IH; by apply (process_well_formed d opt None values)
      end.
Qed.

Lemma process_args_well_formed n : forall rargs largs
    (values values' : gmap string pyval) args,
  (length rargs <= n)%nat ->
  well_formed values ->
  process_args ios largs rargs values = Parsed values' args ->
  well_formed values'.
Proof.
  induction n as [|n IH]; intros rargs largs values values' args Hn Hw.
  - destruct rargs; [|simpl in Hn; lia]. by intros [= <- _].
  - destruct rargs as [|arg rest]; [by intros [= <- _]|].
    simpl in Hn. cbn [process_args].
    destruct (bool_decide (arg = "--")); [by intros [= <- _]|].
    destruct (String.prefix "--" arg).
    + destruct (process_long_opt ios arg (head rest) values)
        as [[v' used]| |] eqn:Hp; try done.
      apply process_long_opt_well_formed in Hp; [|done].
      destruct rest as [|nxt rest']; [apply IH; simpl; [lia|done]|].
      destruct used; apply IH; simpl in *; try done; lia.
    + destruct (String.prefix "-" arg && (1 <? String.length arg)%nat).
      * destruct (process_short_opts ios _ (head rest) values)
          as [[v' used]| |] eqn:Hp; try done.
        apply process_short_opts_well_formed in Hp; [|done].
        destruct rest as [|nxt rest']; [apply IH; simpl; [lia|done]|].
        destruct used; apply IH; simpl in *; try done; lia.
      * apply IH; [lia|done].
Qed.

(** X9: whatever the command line, the values that [parse_args] returns hold
    every attribute that [main] reads, each with a value of its kind: the
    flags are booleans, the network parameters and the log level are
    strings, [log_file] is a string or [None], [time_limit] an int or
    [None]. *)
Theorem parsed_options_are_complete (argv : list string)
    (values : gmap string pyval) (args : list string) :
  parse_args ios argv = Parsed values args ->
  well_formed values /\ exists o, options_of values = Some o.
Proof.
  intros Hp.
  assert (well_formed values) as Hw.
  { apply (process_args_well_formed (length argv) argv [] _ _ args (le_n _)
             (default_well_formed ios) Hp). }
  split; [done|]. by apply well_formed_options.
Qed.

(** ** One option at a time *)

Lemma process_long_opt_separate d v (values : gmap string pyval) :
  d ∈ all_options -> takes_value d = true ->
  process_long_opt ios (opt_long d) (Some v) values =
  match process ios d (opt_long d) (Some v) values with
  | Go values' => Go (values', true)
  | Stop_error err => Stop_error err
  | Stop_help => Stop_help
  end.
Proof.
  intros Hd Ht. destruct (table_long_facts d Hd) as (_ & _ & Hi & Hm).
  unfold process_long_opt. by rewrite Hi, Hm, Ht.
Qed.

Lemma process_long_opt_joined d v next (values : gmap string pyval) :
  d ∈ all_options -> takes_value d = true ->
  process_long_opt ios (opt_long d +:+ "=" +:+ v) next values =
  match process ios d (opt_long d) (Some v) values with
  | Go values' => Go (values', false)
  | Stop_error err => Stop_error err
  | Stop_help => Stop_help
  end.
Proof.
  intros Hd Ht. destruct (table_long_facts d Hd) as (_ & _ & _ & Hm).
  destruct (table_long_facts d Hd) as (_ & _ & Hi & _).
  unfold process_long_opt.
  rewrite (string_index_joined _ v Hi), string_substring_head.
  change ("=" +:+ v) with (String "=" v).
  by rewrite string_substring_tail, Hm, Ht.
Qed.

Lemma process_store d k opt v (values : gmap string pyval) :
  opt_action d = store -> dest_of d = Some k ->
  process ios d opt (Some v) values =
  match check_value ios d v with
  | Some pv => Go (<[k := pv]> values)
  | None => Stop_error (Invalid_value opt v)
  end.
Proof.
  intros Ha Hk. unfold process, take_action. rewrite Ha, Hk. done.
Qed.


(** A value option of the table followed by its value: what
    [_process_args] does with the two arguments. *)
Lemma process_args_long_value d k v largs rest (values : gmap string pyval) :
  d ∈ all_options -> takes_value d = true -> dest_of d = Some k ->
  process_args ios largs (opt_long d :: v :: rest) values =
  match check_value ios d v with
  | Some pv => process_args ios largs rest (<[k := pv]> values)
  | None => Usage (Invalid_value (opt_long d) v)
  end.
Proof.
  intros Hd Ht Hk.
  destruct (table_long_facts d Hd) as (H1 & H2 & _).
  assert (opt_action d = store) as Ha.
  { pose proof (table_kinds d k Hd Hk) as Hkind. unfold takes_value in Ht.
    by destruct (opt_action d), (opt_type d). }
  cbn [process_args]. rewrite H1, H2. cbn [head].
  rewrite (process_long_opt_separate d v values Hd Ht).
  rewrite (process_store d k _ v values Ha Hk).
  by destruct (check_value ios d v).
Qed.

Lemma process_args_long_joined d k v largs rest (values : gmap string pyval) :
  d ∈ all_options -> takes_value d = true -> dest_of d = Some k ->
  process_args ios largs ((opt_long d +:+ "=" +:+ v) :: rest) values =
  match check_value ios d v with
  | Some pv => process_args ios largs rest (<[k := pv]> values)
  | None => Usage (Invalid_value (opt_long d) v)
  end.
Proof.
  intros Hd Ht Hk.
  destruct (table_joined_facts d v Hd) as (H1 & H2).
  assert (opt_action d = store) as Ha.
  { pose proof (table_kinds d k Hd Hk) as Hkind. unfold takes_value in Ht.
    by destruct (opt_action d), (opt_type d). }
  cbn [process_args]. rewrite H1, H2.
  rewrite (process_long_opt_joined d v _ values Hd Ht).
  rewrite (process_store d k _ v values Ha Hk).
  destruct (check_value ios d v); [|done]. by destruct rest.
Qed.

(** X10: for every option of the table that takes a value, [--option=value] in
    one argument and [--option value] in two are read alike, whatever
    the value and whatever follows. *)
Theorem joined_and_separate_value_agree
    d v largs rest (values : gmap string pyval) :
  d ∈ all_options -> takes_value d = true ->
  process_args ios largs ((opt_long d +:+ "=" +:+ v) :: rest) values
  = process_args ios largs (opt_long d :: v :: rest) values.
Proof.
  intros Hd Ht.
  assert (exists k, dest_of d = Some k) as [k Hk].
  { each_option Hd; try discriminate Ht; eexists; by vm_compute. }
  by rewrite (process_args_long_value d k), (process_args_long_joined d k).
Qed.

(** X11: [--log_level] takes one of the five level names and nothing else: any
    other value ends the parse with a usage error, and nothing that
    follows is read. *)
Theorem log_level_must_be_a_level v largs rest (values : gmap string pyval) :
  process_args ios largs ("--log_level" :: v :: rest) values =
  if bool_decide (v ∈ ["debug"; "info"; "warning"; "error"; "critical"])
  then process_args ios largs rest (<["log_level" := VStr v]> values)
  else Usage (Invalid_value "--log_level" v).
Proof.
  assert (exists d, d ∈ all_options /\ opt_long d = "--log_level"
                    /\ takes_value d = true /\ dest_of d = Some "log_level"
                    /\ opt_type d = Some (type_choice
                         ["debug"; "info"; "warning"; "error"; "critical"]))
    as (d & Hd & Hl & Ht & Hk & Hty).
  { exists (nth 3 all_options help_option).
    split; [vm_compute; in_list|split_and!; by vm_compute]. }
  rewrite <- Hl, (process_args_long_value d _ v _ _ _ Hd Ht Hk).
  unfold check_value. rewrite Hty. by destruct (bool_decide _).
Qed.

(** X12: [--time_limit] takes what converts to an int, and stores the int; a
    value that does not convert ends the parse with a usage error. *)
Theorem time_limit_must_be_an_int v largs rest (values : gmap string pyval) :
  process_args ios largs ("--time_limit" :: v :: rest) values =
  match ios v with
  | Some seconds =>
      process_args ios largs rest (<["time_limit" := VInt seconds]> values)
  | None => Usage (Invalid_value "--time_limit" v)
  end.
Proof.
  assert (exists d, d ∈ all_options /\ opt_long d = "--time_limit"
                    /\ takes_value d = true /\ dest_of d = Some "time_limit"
                    /\ opt_type d = Some type_int)
    as (d & Hd & Hl & Ht & Hk & Hty).
  { exists (nth 5 all_options help_option).
    split; [vm_compute; in_list|split_and!; by vm_compute]. }
  rewrite <- Hl, (process_args_long_value d _ v _ _ _ Hd Ht Hk).
  unfold check_value. rewrite Hty. by destruct (ios v).
Qed.


(** ** Short options *)

Lemma process_args_short_flag d largs rest (values : gmap string pyval) :
  d ∈ all_options -> takes_value d = false ->
  process_args ios largs (opt_short d :: rest) values
  = match process ios d (opt_short d) None values with
    | Go values' => process_args ios largs rest values'
    | Stop_error err => Usage err
    | Stop_help => Help_printed
    end.
Proof.
  intros Hd Ht.
  destruct (table_short_facts d Hd) as (H1 & H2 & H3 & Hm & ch & Hch).
  cbn [process_args]. rewrite H1, H2, H3. rewrite Hch in *.
  cbn [String.length Nat.sub String.substring].
  cbn [process_short_opts]. rewrite Hm, Ht.
  destruct (process ios d _ None values); [|done..].
  by destruct rest.
Qed.

Lemma process_args_long_flag d largs rest (values : gmap string pyval) :
  d ∈ all_options -> takes_value d = false ->
  process_args ios largs (opt_long d :: rest) values
  = match process ios d (opt_long d) None values with
    | Go values' => process_args ios largs rest values'
    | Stop_error err => Usage err
    | Stop_help => Help_printed
    end.
Proof.
  intros Hd Ht.
  destruct (table_long_facts d Hd) as (H1 & H2 & Hi & Hm).
  cbn [process_args]. rewrite H1, H2.
  unfold process_long_opt. rewrite Hi, Hm, Ht.
  destruct (process ios d _ None values); [|done..].
  by destruct rest.
Qed.

Lemma process_args_short_value d k v largs rest (values : gmap string pyval) :
  d ∈ all_options -> takes_value d = true -> dest_of d = Some k ->
  process_args ios largs (opt_short d :: v :: rest) values =
  match check_value ios d v with
  | Some pv => process_args ios largs rest (<[k := pv]> values)
  | None => Usage (Invalid_value (opt_short d) v)
  end.
Proof.
  intros Hd Ht Hk.
  destruct (table_short_facts d Hd) as (H1 & H2 & H3 & Hm & ch & Hch).
  assert (opt_action d = store) as Ha.
  { pose proof (table_kinds d k Hd Hk) as Hkind. unfold takes_value in Ht.
    by destruct (opt_action d), (opt_type d). }
  cbn [process_args]. rewrite H1, H2, H3. rewrite Hch in *.
  cbn [String.length Nat.sub String.substring head].
  cbn [process_short_opts]. rewrite Hm, Ht.
  rewrite (process_store d k _ v values Ha Hk).
  by destruct (check_value ios d v).
Qed.

Lemma process_args_short_attached d k c v largs rest
    (values : gmap string pyval) :
  d ∈ all_options -> takes_value d = true -> dest_of d = Some k ->
  process_args ios largs ((opt_short d +:+ String c v) :: rest) values =
  match check_value ios d (String c v) with
  | Some pv => process_args ios largs rest (<[k := pv]> values)
  | None => Usage (Invalid_value (opt_short d) (String c v))
  end.
Proof.
  intros Hd Ht Hk.
  destruct (table_short_facts d Hd) as (_ & H2 & _ & Hm & ch & Hch).
  assert (opt_action d = store) as Ha.
  { pose proof (table_kinds d k Hd Hk) as Hkind. unfold takes_value in Ht.
    by destruct (opt_action d), (opt_type d). }
  rewrite Hch in *.
  change (String "-" (String ch "") +:+ String c v)
    with (String "-" (String ch (String c v))).
  assert (String.prefix "--" (String "-" (String ch (String c v))) = false)
    as H2'.
  { rewrite !string_prefix_cons in *. destruct (ascii_dec "-" "-"); [|done].
    destruct (ascii_dec "-" ch); [|done]. by rewrite string_prefix_empty in H2. }
  cbn [process_args].
  rewrite bool_decide_eq_false_2 by (intros [=]; done).
  rewrite H2'.
  change (String.prefix "-" (String "-" (String ch (String c v)))
          && (1 <? String.length (String "-" (String ch (String c v))))%nat)
    with (String.prefix "" (String ch (String c v))).
  rewrite string_prefix_empty.
  change (String.substring 1
            (String.length (String "-" (String ch (String c v))) - 1)
            (String "-" (String ch (String c v))))
    with (String.substring 0 (String.length (String ch (String c v)))
            (String ch (String c v))).
  rewrite substring_all.
  cbn [process_short_opts]. rewrite Hm, Ht.
  rewrite (process_store d k _ (String c v) values Ha Hk).
  destruct (check_value ios d (String c v)); [|done]. by destruct rest.
Qed.

(** X14: the short and the long form of an option of the table do the same: a
    flag in either form, and a value option followed by a value it
    accepts. A value written against the short option, as in [-t5], is
    read as the value given after it, as in [-t 5]. *)
Theorem short_and_long_forms_agree d largs rest (values : gmap string pyval) :
  d ∈ all_options ->
  (takes_value d = false ->
   process_args ios largs (opt_short d :: rest) values
   = process_args ios largs (opt_long d :: rest) values)
  /\ (forall v,
        takes_value d = true -> is_Some (check_value ios d v) ->
        process_args ios largs (opt_short d :: v :: rest) values
        = process_args ios largs (opt_long d :: v :: rest) values)
  /\ (forall v,
        takes_value d = true -> v <> "" ->
        process_args ios largs ((opt_short d +:+ v) :: rest) values
        = process_args ios largs (opt_short d :: v :: rest) values).
Proof.
  intros Hd. split_and!.
  - intros Ht.
    rewrite (process_args_short_flag d _ _ _ Hd Ht),
      (process_args_long_flag d _ _ _ Hd Ht).
    unfold process. done.
  - intros v Ht [pv Hv].
    assert (exists k, dest_of d = Some k) as [k Hk].
    { each_option Hd; try discriminate Ht; eexists; by vm_compute. }
    rewrite (process_args_short_value d k v _ _ _ Hd Ht Hk),
      (process_args_long_value d k v _ _ _ Hd Ht Hk).
    by rewrite Hv.
  - intros v Ht Hv.
    assert (exists k, dest_of d = Some k) as [k Hk].
    { each_option Hd; try discriminate Ht; eexists; by vm_compute. }
    destruct v as [|c v]; [done|].
    by rewrite (process_args_short_value d k _ _ _ _ Hd Ht Hk),
      (process_args_short_attached d k c v _ _ _ Hd Ht Hk).
Qed.
(** ** Positional arguments *)

Lemma looks_positional_spec arg :
  looks_positional arg = true ->
  bool_decide (arg = "--") = false
  /\ String.prefix "--" arg = false
  /\ (String.prefix "-" arg && (1 <? String.length arg)%nat) = false.
Proof.
  unfold looks_positional. intros H%negb_true_iff. split_and!; [| |done].
  - apply bool_decide_eq_false. by intros ->.
  - destruct arg as [|c1 [|c2 s]]; [done| |].
    + rewrite string_prefix_cons. by destruct (ascii_dec "-" c1).
    + rewrite string_prefix_cons in *.
      destruct (ascii_dec "-" c1); [|done]. done.
Qed.

Lemma process_args_positional largs arg rest values :
  looks_positional arg = true ->
  process_args ios largs (arg :: rest) values
  = process_args ios (largs ++ [arg]) rest values.
Proof.
  intros (H1 & H2 & H3)%looks_positional_spec.
  cbn -[process_long_opt process_short_opts bool_decide String.prefix String.length Nat.ltb String.substring].
  rewrite H1, H2, H3. done.
Qed.


(** X15: arguments that do not look like options are all positional: they come
    back in the order given, and no attribute is touched; the dash alone
    is one of them. *)
Theorem positional_arguments_pass_through
    (argv largs : list string) (values : gmap string pyval) :
  Forall (fun arg => looks_positional arg = true) argv ->
  process_args ios largs argv values = Parsed values (largs ++ argv)
  /\ parse_args ios argv = Parsed (get_default_values ios) argv
  /\ looks_positional "-" = true.
Proof.
  intros Hall.
  assert (forall acc vals,
            process_args ios acc argv vals = Parsed vals (acc ++ argv))
    as Hgen.
  { clear largs values. induction Hall as [|arg rest Harg _ IH]; intros acc vals.
    - by rewrite app_nil_r.
    - rewrite (process_args_positional _ _ _ _ Harg), IH.
      by rewrite <- app_assoc. }
  split_and!; [apply Hgen| |done].
  unfold parse_args. by rewrite Hgen.
Qed.

(** X16: after [--] nothing is an option: what follows is positional as it
    stands, even when it begins with dashes. *)
Theorem nothing_is_an_option_after_the_terminator
    (before rest largs : list string) (values : gmap string pyval) :
  Forall (fun arg => looks_positional arg = true) before ->
  process_args ios largs (before ++ "--" :: rest) values
  = Parsed values (largs ++ before ++ rest).
Proof.
  intros Hall. revert largs.
  induction Hall as [|arg more Harg _ IH]; intros largs.
  - done.
  - cbn [app]. rewrite (process_args_positional _ _ _ _ Harg), IH.
    by rewrite <- app_assoc.
Qed.

End Parsing.

(** ** The properties at work *)

Lemma parsed_options_are_complete_witness :
  well_formed (<["time_limit" := VInt 5]> (get_default_values digit_of_string))
  /\ exists o,
       options_of (<["time_limit" := VInt 5]>
                     (get_default_values digit_of_string)) = Some o.
Proof.
  apply (parsed_options_are_complete digit_of_string
           ["-t"; "5"; "archive.wpr"] _ ["archive.wpr"]).
  by vm_compute.
Defined.

Lemma joined_and_separate_value_agree_witness :
  process_args digit_of_string [] ["--up=5Mbit/s"; "archive.wpr"]
    (get_default_values digit_of_string)
  = process_args digit_of_string [] ["--up"; "5Mbit/s"; "archive.wpr"]
      (get_default_values digit_of_string).
Proof.
  apply (joined_and_separate_value_agree digit_of_string
           (nth 6 all_options help_option) "5Mbit/s" [] ["archive.wpr"]).
  - vm_compute. in_list.
  - reflexivity.
Defined.


Lemma positional_arguments_pass_through_witness :
  process_args digit_of_string [] ["archive.wpr"; "-"]
    (get_default_values digit_of_string)
  = Parsed (get_default_values digit_of_string) ["archive.wpr"; "-"].
Proof.
  refine (proj1 (positional_arguments_pass_through digit_of_string
                   ["archive.wpr"; "-"] [] _ _)).
  repeat constructor.
Defined.

Lemma nothing_is_an_option_after_the_terminator_witness :
  process_args digit_of_string [] ["archive.wpr"; "--"; "--spdy"; "-x"]
    (get_default_values digit_of_string)
  = Parsed (get_default_values digit_of_string)
      ["archive.wpr"; "--spdy"; "-x"].
Proof.
  apply (nothing_is_an_option_after_the_terminator digit_of_string
           ["archive.wpr"] ["--spdy"; "-x"] []).
  repeat constructor.
Defined.

Lemma short_and_long_forms_agree_witness :
  process_args digit_of_string [] ["-t"; "5"; "archive.wpr"]
    (get_default_values digit_of_string)
  = process_args digit_of_string [] ["--time_limit"; "5"; "archive.wpr"]
      (get_default_values digit_of_string)
  /\ process_args digit_of_string [] ["-t5"; "archive.wpr"]
       (get_default_values digit_of_string)
     = process_args digit_of_string [] ["-t"; "5"; "archive.wpr"]
         (get_default_values digit_of_string).
Proof.
  assert (nth 5 all_options help_option ∈ all_options) as Hd
    by (vm_compute; in_list).
  destruct (short_and_long_forms_agree digit_of_string
              (nth 5 all_options help_option) [] ["archive.wpr"]
              (get_default_values digit_of_string) Hd) as (_ & H1 & H2).
  split.
  - apply (H1 "5"); [reflexivity|]. by eexists.
  - apply (H2 "5"); [reflexivity|discriminate].
Defined.

(** * The version guard *)

(** X17: the module compares the interpreter's version with ['2.6'] as strings:
    a first character other than [2] decides by itself, after [2.] the
    next character is compared with [6], and what follows plays no part;
    so 2.6 and 2.7 go on, 2.5 leaves with status 1, and so would a
    version written 2.10. *)
Theorem version_guard_compares_characters :
  (forall d rest,
      too_old (String "2" (String "." (String d rest)))
      = (N_of_ascii d <? N_of_ascii "6")%N)
  /\ (forall m rest,
        m <> "2"%char ->
        too_old (String m rest) = (N_of_ascii m <? N_of_ascii "2")%N)
  /\ (forall rest, version_guard ("2.6" +:+ rest) = None)
  /\ (forall rest, version_guard ("2.5" +:+ rest) = Some 1)
  /\ (forall rest, version_guard ("2.10" +:+ rest) = Some 1).
Proof.
  assert (forall d rest,
      too_old (String "2" (String "." (String d rest)))
      = (N_of_ascii d <? N_of_ascii "6")%N) as H1.
  { intros d rest. unfold too_old, String.ltb.
    change (String.compare (String "2" (String "." (String d rest))) "2.6")
      with (match Ascii.compare d "6" with
            | Eq => String.compare rest ""
            | ne => ne
            end).
    unfold Ascii.compare, N.ltb.
    destruct (N_of_ascii d ?= N_of_ascii "6")%N; try done.
    by destruct rest. }
  split_and!; [done| | | |].
  - intros m rest Hm. unfold too_old, String.ltb.
    change (String.compare (String m rest) "2.6")
      with (match Ascii.compare m "2" with
            | Eq => String.compare rest ".6"
            | ne => ne
            end).
    unfold Ascii.compare, N.ltb.
    destruct (N_of_ascii m ?= N_of_ascii "2")%N eqn:E; try done.
    apply N.compare_eq in E. destruct Hm.
    by rewrite <- (ascii_N_embedding m), E.
  - intros rest. unfold version_guard.
    change ("2.6" +:+ rest) with (String "2" (String "." (String "6" rest))).
    by rewrite H1.
  - intros rest. unfold version_guard.
    change ("2.5" +:+ rest) with (String "2" (String "." (String "5" rest))).
    by rewrite H1.
  - intros rest. unfold version_guard.
    change ("2.10" +:+ rest)
      with (String "2" (String "." (String "1" (String "0" rest)))).
    by rewrite H1.
Qed.

Lemma version_guard_compares_characters_witness :
  too_old "3.1.4" = (N_of_ascii "3" <? N_of_ascii "2")%N.
Proof.
  apply (proj1 (proj2 version_guard_compares_characters) "3"%char ".1.4").
  discriminate.
Defined.
